(** * KPI derivation and scoring engine of the manufacturing diagnostic (app.py)

    A shallow embedding of the computation core of [app.py]: numeric
    coercion helpers, the KPI calculator, the two threshold scorers, the
    weighted composite score, the rule-based tips and the grouped
    breakdowns, followed by the properties stated about them.

    Conventions of the embedding.
    - Python's [None] is [None] of [option]; a function that can raise
      returns in the error monad [res].
    - A Python float that holds a real number is a rational [Q] with exact
      arithmetic: binary64 rounding and overflow are not modelled there.
      Where rounding, overflow or NaN decide a property, the scalar code is
      embedded a second time over binary64 ([float], the [_f64]
      definitions).  The special values that pandas' element-wise division
      produces (inf, NaN) are modelled by [float64] where the source uses
      that division.
    - pandas' parsers are not part of the repository.  A cell of the table
      carries what each coercion ([to_numeric], [to_datetime], the group key
      of [groupby]) makes of it, [None] standing for NaN / NaT. *)

From Stdlib Require Import QArith ZArith List String Bool Lia Lqa.
From Stdlib Require Import DecimalString.
From Stdlib Require Import Floats.

Set Warnings "-inexact-float".
Import ListNotations.

Open Scope string_scope.
Open Scope Q_scope.

(** ** Exceptions and the error monad *)

Inductive exn : Type :=
| KeyError (col : string)
| ZeroDivisionError.

Inductive res (A : Type) : Type :=
| Ret (a : A)
| Raise (e : exn).

Arguments Ret {A} a.
Arguments Raise {A} e.

Definition bind {A B : Type} (c : res A) (k : A -> res B) : res B :=
  match c with
  | Ret a => k a
  | Raise e => Raise e
  end.

Notation "x <- c ;; k" := (bind c (fun x => k))
  (at level 61, c at next level, right associativity).

(** Python's [n / d] on floats: raises on a zero divisor. *)
Definition truediv (n d : Q) : res Q :=
  if Qeq_bool d 0 then Raise ZeroDivisionError else Ret (n / d).

(** ** Tables *)

(** A cell, seen through the three pandas coercions the program applies. *)
Record cell : Type := mkCell {
  as_number : option Q;      (* pd.to_numeric(..., errors="coerce") *)
  as_date   : option Z;      (* pd.to_datetime(..., errors="coerce"), in ns *)
  as_key    : option string  (* group key; None is dropped by groupby *)
}.

(** A loaded DataFrame: column labels and rows; every row has a cell for
    every label, so all columns have the length of [rows]. *)
Record DataFrame : Type := mkDF {
  columns : list string;
  rows    : list (string -> cell)
}.

(** The selectbox entry that stands for "no column". *)
Definition UNSET : string := "(없음)".

Definition is_unset (col : string) : bool := String.eqb col UNSET.

(** [df[col]] *)
Definition getitem (df : DataFrame) (col : string) : res (list cell) :=
  if existsb (String.eqb col) (columns df)
  then Ret (map (fun r => r col) (rows df))
  else Raise (KeyError col).

(** A column selection the UI can produce: the sentinel or a label of [df]. *)
Definition selectable (df : DataFrame) (col : string) : Prop :=
  col = UNSET \/ In col (columns df).

(** ** Numeric coercion helpers *)

Definition to_num (s : list cell) : list (option Q) := map as_number s.

Definition to_datetime (s : list cell) : list (option Z) := map as_date s.

Definition fillna (v : Q) (s : list (option Q)) : list Q :=
  map (fun x => match x with Some q => q | None => v end) s.

Fixpoint dropna (s : list (option Q)) : list Q :=
  match s with
  | [] => []
  | Some q :: s' => q :: dropna s'
  | None :: s' => dropna s'
  end.

Definition series_sum (s : list Q) : Q := fold_right Qplus 0 s.

(** [Series.mean()] of a non-empty series. *)
Definition series_mean (s : list Q) : Q :=
  series_sum s / inject_Z (Z.of_nat (List.length s)).

Definition safe_sum (df : DataFrame) (col : string) : res (option Q) :=
  if is_unset col then Ret None
  else
    s <- getitem df col ;;
    Ret (Some (series_sum (fillna 0 (to_num s)))).

Definition safe_mean (df : DataFrame) (col : string) : res (option Q) :=
  if is_unset col then Ret None
  else
    s <- getitem df col ;;
    let x := dropna (to_num s) in
    Ret (match x with
         | [] => None
         | _ :: _ => Some (series_mean x)
         end).

Definition safe_ratio (n d : option Q) : res (option Q) :=
  match n, d with
  | None, _ => Ret None
  | Some _, None => Ret None
  | Some n', Some d' =>
      if Qeq_bool d' 0 then Ret None
      else q <- truediv n' d' ;; Ret (Some q)
  end.

(** ** Threshold scorers *)

Definition score_by_threshold (value : option Q) (good warn : Q) : option Z :=
  match value with
  | None => None
  | Some v =>
      if Qle_bool good v then Some 100%Z
      else if Qle_bool warn v then Some 70%Z
      else Some 40%Z
  end.

Definition score_by_inverse_threshold (value : option Q) (good warn : Q)
  : option Z :=
  match value with
  | None => None
  | Some v =>
      if Qle_bool v good then Some 100%Z
      else if Qle_bool v warn then Some 70%Z
      else Some 40%Z
  end.

Definition traffic_light (score : option Z) : string :=
  match score with
  | None => "⚪"
  | Some s =>
      if (85 <=? s)%Z then "🟢"
      else if (60 <=? s)%Z then "🟠"
      else "🔴"
  end.

(** ** KPI calculator *)

(** The column selections of the mapping step. *)
Record Mapping : Type := mkMapping {
  col_sales      : string;
  col_cogs       : string;
  col_fixed      : string;
  col_labor      : string;
  col_prod_qty   : string;
  col_good_qty   : string;
  col_defect_qty : string;
  col_due        : string;
  col_ship       : string;
  col_inventory  : string;
  col_unit_cost  : string
}.

Definition well_mapped (df : DataFrame) (m : Mapping) : Prop :=
  selectable df (col_sales m) /\ selectable df (col_cogs m) /\
  selectable df (col_fixed m) /\ selectable df (col_labor m) /\
  selectable df (col_prod_qty m) /\ selectable df (col_good_qty m) /\
  selectable df (col_defect_qty m) /\ selectable df (col_due m) /\
  selectable df (col_ship m) /\ selectable df (col_inventory m) /\
  selectable df (col_unit_cost m).

(** [gross = None if (sales is None or cogs is None) else (sales - cogs)] *)
Definition gross (sales cogs : option Q) : option Q :=
  match sales, cogs with
  | Some s, Some c => Some (s - c)
  | _, _ => None
  end.

(** The conditional subtractions [if x is not None: op_profit -= x]. *)
Definition minus_if_set (p : Q) (x : option Q) : Q :=
  match x with
  | Some c => p - c
  | None => p
  end.

Definition op_profit (sales cogs fixed labor : option Q) : option Q :=
  match sales with
  | None => None
  | Some s =>
      Some (minus_if_set (minus_if_set (minus_if_set s cogs) fixed) labor)
  end.

Definition notna {A : Type} (x : option A) : bool :=
  match x with
  | Some _ => true
  | None => false
  end.

(** Element-wise combination of two columns of one table. *)
Definition map2 {A B C : Type} (f : A -> B -> C) (a : list A) (b : list B)
  : list C :=
  map (fun p => f (fst p) (snd p)) (combine a b).

(** Boolean indexing [s[m]]. *)
Fixpoint mask {A : Type} (s : list A) (m : list bool) : list A :=
  match s, m with
  | x :: s', true :: m' => x :: mask s' m'
  | _ :: s', false :: m' => mask s' m'
  | _, _ => []
  end.

(** [a <= b] on datetime series; a comparison with NaT is False. *)
Definition date_le (a b : option Z) : bool :=
  match a, b with
  | Some x, Some y => (x <=? y)%Z
  | _, _ => false
  end.

Definition count_true (l : list bool) : nat := List.length (filter id l).

(** [Series.mean()] of a non-empty boolean series. *)
Definition bool_mean (l : list bool) : Q :=
  inject_Z (Z.of_nat (count_true l)) / inject_Z (Z.of_nat (List.length l)).

Definition on_time_rate (df : DataFrame) (c_due c_ship : string)
  : res (option Q) :=
  if negb (is_unset c_due) && negb (is_unset c_ship) then
    d <- getitem df c_due ;;
    s <- getitem df c_ship ;;
    let due := to_datetime d in
    let ship := to_datetime s in
    let valid := map2 (fun x y => notna x && notna y) due ship in
    if existsb id valid
    then Ret (Some (bool_mean (map2 date_le (mask ship valid) (mask due valid))))
    else Ret None
  else Ret None.

Definition inventory_value (df : DataFrame) (c_inv c_cost : string)
  : res (option Q) :=
  if negb (is_unset c_inv) && negb (is_unset c_cost) then
    i <- getitem df c_inv ;;
    u <- getitem df c_cost ;;
    let inv := fillna 0 (to_num i) in
    let uc := fillna 0 (to_num u) in
    Ret (Some (series_sum (map2 Qmult inv uc)))
  else Ret None.

(** The KPI values of one run, in the order the script computes them. *)
Record Kpis : Type := mkKpis {
  sales        : option Q;
  cogs         : option Q;
  fixed        : option Q;
  labor        : option Q;
  gross_margin : option Q;
  op_margin    : option Q;
  defect_rate  : option Q;
  yield_rate   : option Q;
  on_time      : option Q;
  inv_to_sales : option Q
}.

Definition compute_kpis (df : DataFrame) (m : Mapping) : res Kpis :=
  sales <- safe_sum df (col_sales m) ;;
  cogs <- safe_sum df (col_cogs m) ;;
  fixed <- safe_sum df (col_fixed m) ;;
  labor <- safe_sum df (col_labor m) ;;
  gross_margin <- safe_ratio (gross sales cogs) sales ;;
  op_margin <- safe_ratio (op_profit sales cogs fixed labor) sales ;;
  prod_qty <- safe_sum df (col_prod_qty m) ;;
  good_qty <- safe_sum df (col_good_qty m) ;;
  defect_qty <- safe_sum df (col_defect_qty m) ;;
  defect_rate <- safe_ratio defect_qty prod_qty ;;
  yield_rate <- safe_ratio good_qty prod_qty ;;
  otr <- on_time_rate df (col_due m) (col_ship m) ;;
  inv_value <- inventory_value df (col_inventory m) (col_unit_cost m) ;;
  inv_to_sales <- safe_ratio inv_value sales ;;
  Ret (mkKpis sales cogs fixed labor gross_margin op_margin
              defect_rate yield_rate otr inv_to_sales).

(** ** Scores and the composite score *)

Definition score_gm (k : Kpis) : option Z :=
  score_by_threshold (gross_margin k) 0.25 0.15.
Definition score_om (k : Kpis) : option Z :=
  score_by_threshold (op_margin k) 0.10 0.05.
Definition score_def (k : Kpis) : option Z :=
  score_by_inverse_threshold (defect_rate k) 0.01 0.03.
Definition score_yield (k : Kpis) : option Z :=
  score_by_threshold (yield_rate k) 0.98 0.95.
Definition score_otd (k : Kpis) : option Z :=
  score_by_threshold (on_time k) 0.95 0.90.
Definition score_inv (k : Kpis) : option Z :=
  match inv_to_sales k with
  | Some _ => score_by_inverse_threshold (inv_to_sales k) 0.15 0.30
  | None => None
  end.

(** The keys of the [scores] and [weights] dicts. *)
Inductive kpi : Type :=
| GrossMargin | OpMargin | DefectRate | YieldRate | OnTime | Inventory.

Definition label (k : kpi) : string :=
  match k with
  | GrossMargin => "수익성(총이익률)"
  | OpMargin => "수익성(영업이익률)"
  | DefectRate => "품질(불량률)"
  | YieldRate => "품질(수율)"
  | OnTime => "납기(준수율)"
  | Inventory => "재고(재고/매출)"
  end.

(** The six individual scores, as the script binds them. *)
Record Scores : Type := mkScores {
  s_gm    : option Z;
  s_om    : option Z;
  s_def   : option Z;
  s_yield : option Z;
  s_otd   : option Z;
  s_inv   : option Z
}.

Definition score_all (k : Kpis) : Scores :=
  mkScores (score_gm k) (score_om k) (score_def k)
           (score_yield k) (score_otd k) (score_inv k).

(** The [scores] dict, in insertion order. *)
Definition scores (s : Scores) : list (kpi * option Z) :=
  [ (GrossMargin, s_gm s); (OpMargin, s_om s); (DefectRate, s_def s);
    (YieldRate, s_yield s); (OnTime, s_otd s); (Inventory, s_inv s) ].

Definition weights (k : kpi) : Q :=
  match k with
  | GrossMargin => 0.22
  | OpMargin => 0.22
  | DefectRate => 0.18
  | YieldRate => 0.18
  | OnTime => 0.12
  | Inventory => 0.08
  end.

(** [[(k, v, weights[k]) for k, v in scores.items() if v is not None]] *)
Fixpoint weighted_items (d : list (kpi * option Z)) : list (kpi * Z * Q) :=
  match d with
  | [] => []
  | (k, Some v) :: d' => (k, v, weights k) :: weighted_items d'
  | (_, None) :: d' => weighted_items d'
  end.

(** Python's built-in [sum]: a left fold from 0. *)
Definition py_sum (l : list Q) : Q := fold_left Qplus l 0.

Definition total_of (items : list (kpi * Z * Q)) : res (option Q) :=
  match items with
  | [] => Ret None
  | _ :: _ =>
      t <- truediv (py_sum (map (fun i => inject_Z (snd (fst i)) * snd i) items))
                   (py_sum (map (fun i => snd i) items)) ;;
      Ret (Some t)
  end.

Definition total_score (s : Scores) : res (option Q) :=
  total_of (weighted_items (scores s)).

(** ** Rule-based tips *)

Definition Qlt_bool (x y : Q) : bool := negb (Qle_bool y x).

(** [v is not None and v < c] *)
Definition below (v : option Q) (c : Q) : bool :=
  match v with
  | Some x => Qlt_bool x c
  | None => false
  end.

(** [v is not None and v > c] *)
Definition above (v : option Q) (c : Q) : bool :=
  match v with
  | Some x => Qlt_bool c x
  | None => false
  end.

Definition TIP_GROSS : string :=
  "원가 구조(재료비/외주/불량)와 납품단가 재협상, 제품 믹스 개선이 우선입니다.".
Definition TIP_OP : string :=
  "고정비·인건비 구조(간접인력, 잔업, 라인밸런싱)를 점검하고 손익분기점을 낮춰야 합니다.".
Definition TIP_PROFIT_OK : string :=
  "수익성 지표는 양호합니다. 다음 단계로 제품별/고객별 손익분석을 권장합니다.".
Definition TIP_DEFECT : string :=
  "불량 TOP 원인(공정/설비/작업자/자재) 파레토 분석 후, 표준작업/검사기준/공정능력 개선이 필요합니다.".
Definition TIP_YIELD : string :=
  "수율 저하는 재작업/스크랩 비용을 키웁니다. 공정조건 관리와 초도품 관리 체계를 점검하세요.".
Definition TIP_QUALITY_OK : string :=
  "품질 지표는 양호합니다. 다음 단계로 공정별 불량/라인별 수율로 분해 분석을 권장합니다.".
Definition TIP_LATE : string :=
  "납기 지연은 신뢰/패널티로 이어집니다. 병목공정, 외주 리드타임, 자재수급(안전재고)부터 점검하세요.".
Definition TIP_STOCK : string :=
  "재고가 매출 대비 과다합니다. 회전율 관리(ABC, 적정재고)와 생산계획 정확도 개선이 필요합니다.".
Definition TIP_DELIVERY_OK : string :=
  "납기/재고 지표는 양호합니다. 다음 단계로 품목별 재고회전/납기지연 원인코드 분석을 권장합니다.".

(** [if cond: tips.append(t)] *)
Definition append_if (cond : bool) (t : string) (tips : list string)
  : list string :=
  if cond then tips ++ [t] else tips.

(** [if not tips: tips.append(t)] *)
Definition append_if_empty (t : string) (tips : list string) : list string :=
  match tips with
  | [] => [t]
  | _ :: _ => tips
  end.

(** The tip list of a domain: two rules, then the fallback. *)
Definition tips (r1 : bool) (t1 : string) (r2 : bool) (t2 : string)
  (fallback : string) : list string :=
  append_if_empty fallback (append_if r2 t2 (append_if r1 t1 [])).

Definition tips_profit (k : Kpis) : list string :=
  tips (below (gross_margin k) 0.15) TIP_GROSS
       (below (op_margin k) 0.05) TIP_OP
       TIP_PROFIT_OK.

Definition tips_quality (k : Kpis) : list string :=
  tips (above (defect_rate k) 0.03) TIP_DEFECT
       (below (yield_rate k) 0.95) TIP_YIELD
       TIP_QUALITY_OK.

Definition tips_delivery (k : Kpis) : list string :=
  tips (below (on_time k) 0.90) TIP_LATE
       (above (inv_to_sales k) 0.30) TIP_STOCK
       TIP_DELIVERY_OK.

(** ** One run of the core *)

Record Diagnosis : Type := mkDiagnosis {
  d_kpis     : Kpis;
  d_scores   : Scores;
  d_total    : option Q;
  d_profit   : list string;
  d_quality  : list string;
  d_delivery : list string
}.

Definition diagnose (df : DataFrame) (m : Mapping) : res Diagnosis :=
  k <- compute_kpis df m ;;
  let s := score_all k in
  t <- total_score s ;;
  Ret (mkDiagnosis k s t (tips_profit k) (tips_quality k) (tips_delivery k)).

(** ** Grouped breakdowns *)

(** A float64 as pandas' element-wise arithmetic sees it. *)
Inductive float64 : Type :=
| Finite (q : Q)
| PosInf
| NegInf
| NaN.

(** [a / b] on two float Series: IEEE division, nothing is raised. *)
Definition np_truediv (a b : Q) : float64 :=
  if Qeq_bool b 0 then
    match a ?= 0 with
    | Gt => PosInf
    | Lt => NegInf
    | Eq => NaN
    end
  else Finite (a / b).

(** The distinct keys of [groupby], listed in the order of their text
    (pandas lists the keys of a numeric column in numeric order). *)
Fixpoint insert_key (k : string) (ks : list string) : list string :=
  match ks with
  | [] => [k]
  | x :: r =>
      match String.compare k x with
      | Lt => k :: ks
      | Eq => ks
      | Gt => x :: insert_key k r
      end
  end.

Definition group_keys (keys : list (option string)) : list string :=
  fold_right (fun k acc => match k with
                           | Some s => insert_key s acc
                           | None => acc
                           end) [] keys.

Definition in_group (g : string) (k : option string) : bool :=
  match k with
  | Some s => String.eqb s g
  | None => false
  end.

(** [groupby(key).sum()] of one coerced column, for the group [g]: NaN is
    skipped. *)
Definition group_sum (keys : list (option string)) (vals : list (option Q))
  (g : string) : Q :=
  series_sum (dropna (mask vals (map (in_group g) keys))).

Record BreakdownRow : Type := mkRow {
  group_key   : string;
  numerator   : Q;
  denominator : Q;
  ratio       : float64
}.

(** The rows of [groupby(key).sum()] with the derived column [num / den]. *)
Definition ratio_by_group (key num den : list cell) : list BreakdownRow :=
  let keys := map as_key key in
  map (fun g =>
         let ns := group_sum keys (to_num num) g in
         let ds := group_sum keys (to_num den) g in
         mkRow g ns ds (np_truediv ns ds))
      (group_keys keys).

(** Defect rate per item; [None] when the breakdown is skipped. *)
Definition breakdown_by_item (df : DataFrame) (m : Mapping) (col_item : string)
  : res (option (list BreakdownRow)) :=
  if negb (is_unset col_item) && negb (is_unset (col_prod_qty m))
     && negb (is_unset (col_defect_qty m))
  then
    item <- getitem df col_item ;;
    prod <- getitem df (col_prod_qty m) ;;
    defect <- getitem df (col_defect_qty m) ;;
    Ret (Some (ratio_by_group item defect prod))
  else Ret None.

(** Yield per line; [None] when the breakdown is skipped. *)
Definition breakdown_by_line (df : DataFrame) (m : Mapping) (col_line : string)
  : res (option (list BreakdownRow)) :=
  if negb (is_unset col_line) && negb (is_unset (col_good_qty m))
     && negb (is_unset (col_prod_qty m))
  then
    line <- getitem df col_line ;;
    good <- getitem df (col_good_qty m) ;;
    prod <- getitem df (col_prod_qty m) ;;
    Ret (Some (ratio_by_group line good prod))
  else Ret None.

(** ** The stated behaviour, in the words of the specification *)

(** What one KPI adds to the numerator and to the denominator of the
    composite: nothing at all when its score is unavailable. *)
Definition contribution (e : kpi * option Z) : Q :=
  match snd e with
  | Some v => inject_Z v * weights (fst e)
  | None => 0
  end.

Definition counted_weight (e : kpi * option Z) : Q :=
  match snd e with
  | Some _ => weights (fst e)
  | None => 0
  end.

Definition spec_numerator (s : Scores) : Q :=
  series_sum (map contribution (scores s)).

Definition spec_denominator (s : Scores) : Q :=
  series_sum (map counted_weight (scores s)).

Definition all_unavailable (s : Scores) : Prop :=
  s_gm s = None /\ s_om s = None /\ s_def s = None /\
  s_yield s = None /\ s_otd s = None /\ s_inv s = None.

(** The components of an entry of [weighted_items]. *)
Definition item_value (i : kpi * Z * Q) : Z := snd (fst i).
Definition item_weight (i : kpi * Z * Q) : Q := snd i.
Definition item_product (i : kpi * Z * Q) : Q :=
  inject_Z (item_value i) * item_weight i.

(** An entry whose score lies in [lo, hi] and whose weight is positive. *)
Definition within (lo hi : Z) (i : kpi * Z * Q) : Prop :=
  (lo <= item_value i <= hi)%Z /\ 0 < item_weight i.

(** The individual scores that are available, and their extremes. *)
Definition scored (s : Scores) : list Z :=
  map item_value (weighted_items (scores s)).

Definition min_scored (s : Scores) : Z :=
  match scored s with
  | [] => 0%Z
  | x :: r => fold_right Z.min x r
  end.

Definition max_scored (s : Scores) : Z :=
  match scored s with
  | [] => 0%Z
  | x :: r => fold_right Z.max x r
  end.

(** A cost component that is unset counts as 0. *)
Definition or_zero (x : option Q) : Q :=
  match x with
  | Some c => c
  | None => 0
  end.

(** The rows in which both dates parse, and whether such a row shipped on
    time. *)
Definition both_parse (c_due c_ship : string) (r : string -> cell) : bool :=
  notna (as_date (r c_due)) && notna (as_date (r c_ship)).

Definition shipped_on_time (c_due c_ship : string) (r : string -> cell)
  : bool :=
  date_le (as_date (r c_ship)) (as_date (r c_due)).

Definition dated_rows (df : DataFrame) (c_due c_ship : string)
  : list (string -> cell) :=
  filter (both_parse c_due c_ship) (rows df).

Definition on_time_fraction (df : DataFrame) (c_due c_ship : string) : Q :=
  inject_Z (Z.of_nat (List.length (filter (shipped_on_time c_due c_ship)
                                          (dated_rows df c_due c_ship))))
  / inject_Z (Z.of_nat (List.length (dated_rows df c_due c_ship))).

(** A rule of the advisory engine fires on an available value only. *)
Definition fires_below (v : option Q) (c : Q) : Prop :=
  exists x, v = Some x /\ x < c.

Definition fires_above (v : option Q) (c : Q) : Prop :=
  exists x, v = Some x /\ c < x.

(** No cell of the column parses as a number. *)
Definition unparseable (df : DataFrame) (col : string) : Prop :=
  forall r, In r (rows df) -> as_number (r col) = None.

(** ** Example tables *)

(** Days since 1970-01-01 of a proleptic Gregorian date. *)
Definition days_from_civil (y m d : Z) : Z :=
  let y' := if (m <=? 2)%Z then (y - 1)%Z else y in
  let era := (y' / 400)%Z in
  let yoe := (y' - era * 400)%Z in
  let mp := if (m <=? 2)%Z then (m + 9)%Z else (m - 3)%Z in
  let doy := ((153 * mp + 2) / 5 + d - 1)%Z in
  let doe := (yoe * 365 + yoe / 4 - yoe / 100 + doy)%Z in
  (era * 146097 + doe - 719468)%Z.

(** Midnight of a date, in nanoseconds since the epoch. *)
Definition timestamp (y m d : Z) : Z :=
  (days_from_civil y m d * 86400000000000)%Z.

(** Cells of the examples; a reading the examples never take is [None]. *)
Definition number (q : Q) : cell := mkCell (Some q) None None.
Definition text (s : string) : cell := mkCell None None (Some s).
Definition date (s : string) (y m d : Z) : cell :=
  mkCell None (Some (timestamp y m d)) (Some s).
Definition blank : cell := mkCell None None None.

Fixpoint row_of (l : list (string * cell)) (c : string) : cell :=
  match l with
  | [] => blank
  | (n, x) :: l' => if String.eqb c n then x else row_of l' c
  end.

Definition table (cols : list string) (data : list (list cell)) : DataFrame :=
  mkDF cols (map (fun r => row_of (combine cols r)) data).

Definition unmapped : Mapping :=
  mkMapping UNSET UNSET UNSET UNSET UNSET UNSET UNSET UNSET UNSET UNSET UNSET.

(** Two orders due on 2024-01-10, shipped on 2024-01-09 and 2024-01-15. *)
Definition orders : DataFrame :=
  table ["due"; "ship"]
        [ [date "2024-01-10" 2024 1 10; date "2024-01-09" 2024 1 9];
          [date "2024-01-10" 2024 1 10; date "2024-01-15" 2024 1 15] ].

(** A column without a single number in it. *)
Definition notes : DataFrame :=
  table ["qty"; "memo"]
        [ [number 1000; text "n/a"]; [number 500; text "-"] ].

(** An item with recorded defects and no recorded production. *)
Definition idle_item : DataFrame :=
  table ["item"; "line"; "produced"; "good"; "defect"]
        [ [text "A"; text "L1"; number 0; number 3; number 5] ].

Definition idle_mapping : Mapping :=
  mkMapping UNSET UNSET UNSET UNSET "produced" "good" "defect"
            UNSET UNSET UNSET UNSET.

(** Sales only: no cost column is mapped. *)
Definition ledger : DataFrame :=
  table ["sales"] [ [number 100]; [number 200] ].

Definition sales_only : Mapping :=
  mkMapping "sales" UNSET UNSET UNSET UNSET UNSET UNSET UNSET UNSET UNSET UNSET.

(** ** Risk list of the summary *)

(** [f"{v}"] of a Python int. *)
Definition str_of_int (v : Z) : string := NilZero.string_of_int (Z.to_int v).

(** The line the loop over [scores.items()] appends for an available
    score, if any. *)
Definition risk_row (k : kpi) (v : Z) : option string :=
  if (v <? 60)%Z then
    Some ("  - 🔴 " ++ label k ++ ": 기준 미달(점수 " ++ str_of_int v ++ ")")%string
  else if (v <? 85)%Z then
    Some ("  - 🟠 " ++ label k ++ ": 개선 권장(점수 " ++ str_of_int v ++ ")")%string
  else None.

Fixpoint risk_rows (d : list (kpi * option Z)) : list string :=
  match d with
  | [] => []
  | (_, None) :: d' => risk_rows d'
  | (k, Some v) :: d' =>
      match risk_row k v with
      | Some r => r :: risk_rows d'
      | None => risk_rows d'
      end
  end.

Definition NO_RISK : string := "  - 🟢 특별한 경고 없음(룰 기반)".

(** The tail of [summary]: the header and the rows, or the all-clear line. *)
Definition risk_section (s : Scores) : list string :=
  "- 주요 리스크:"
  :: match risk_rows (scores s) with
     | [] => [NO_RISK]
     | r :: rs => r :: rs
     end.

(** ** Row-level charts *)

(** [tmp.dropna()] over two coerced columns: the rows with both cells. *)
Fixpoint dropna_rows (a b : list (option Q)) : list (Q * Q) :=
  match a, b with
  | Some x :: a', Some y :: b' => (x, y) :: dropna_rows a' b'
  | _ :: a', _ :: b' => dropna_rows a' b'
  | _, _ => []
  end.

(** [np.where(c, a, b)], element-wise. *)
Definition np_where (c : bool) (a b : float64) : float64 :=
  if c then a else b.

Definition is_nan (x : float64) : bool :=
  match x with
  | NaN => true
  | _ => false
  end.

(** The per-row defect rates of the histogram; [None] when no chart is
    drawn. *)
Definition row_defect_rates (df : DataFrame) (c_prod c_defect : string)
  : res (option (list float64)) :=
  if negb (is_unset c_prod) && negb (is_unset c_defect) then
    p <- getitem df c_prod ;;
    d <- getitem df c_defect ;;
    let tmp := dropna_rows (to_num p) (to_num d) in
    match tmp with
    | [] => Ret None
    | _ :: _ =>
        let rate := map (fun pd => np_where (Qlt_bool 0 (fst pd))
                                            (np_truediv (snd pd) (fst pd)) NaN)
                        tmp in
        Ret (Some (filter (fun x => negb (is_nan x)) rate))
    end
  else Ret None.

Definition NS_PER_DAY : Z := 86400000000000.

(** Difference of two timestamps; NaT propagates. *)
Definition date_sub (a b : option Z) : option Z :=
  match a, b with
  | Some x, Some y => Some (x - y)%Z
  | _, _ => None
  end.

(** [.dt.days] of a timedelta: whole days, rounded down. *)
Definition dt_days (d : option Z) : option Z :=
  match d with
  | Some x => Some (x / NS_PER_DAY)%Z
  | None => None
  end.

(** The lateness in days of the delivery histogram; [None] when no chart
    is drawn. *)
Definition delay_days (df : DataFrame) (c_due c_ship : string)
  : res (option (list (option Z))) :=
  if negb (is_unset c_due) && negb (is_unset c_ship) then
    d <- getitem df c_due ;;
    s <- getitem df c_ship ;;
    let due := to_datetime d in
    let ship := to_datetime s in
    let valid := map2 (fun x y => notna x && notna y) due ship in
    if existsb id valid
    then Ret (Some (map dt_days
                        (map2 date_sub (mask ship valid) (mask due valid))))
    else Ret None
  else Ret None.

(** ** Notions used to state further properties *)

(** The same KPIs are scored, and none of them lower. *)
Definition improves (a b : option Z) : Prop :=
  match a, b with
  | Some x, Some y => (x <= y)%Z
  | None, None => True
  | _, _ => False
  end.

Definition scores_improve (s s' : Scores) : Prop :=
  improves (s_gm s) (s_gm s') /\ improves (s_om s) (s_om s') /\
  improves (s_def s) (s_def s') /\ improves (s_yield s) (s_yield s') /\
  improves (s_otd s) (s_otd s') /\ improves (s_inv s) (s_inv s').

(** Strictly increasing in the order of [String.compare]. *)
Fixpoint increasing (l : list string) : Prop :=
  match l with
  | [] => True
  | x :: r =>
      match r with
      | [] => True
      | y :: _ => String.compare x y = Lt
      end /\ increasing r
  end.

(** A row contributes to the inventory value only if both cells parse. *)
Definition both_numbers (c1 c2 : string) (r : string -> cell) : bool :=
  notna (as_number (r c1)) && notna (as_number (r c2)).

(** The raw KPI values of a run, each as the helpers derive it from the
    table: the four sums behind the margins, the two margins, the two
    quality ratios over the produced sum, the on-time rate and inventory
    over sales. *)
Definition derived_kpis (df : DataFrame) (m : Mapping) (k : Kpis) : Prop :=
  exists prod good defect inv,
    safe_sum df (col_sales m) = Ret (sales k) /\
    safe_sum df (col_cogs m) = Ret (cogs k) /\
    safe_sum df (col_fixed m) = Ret (fixed k) /\
    safe_sum df (col_labor m) = Ret (labor k) /\
    safe_sum df (col_prod_qty m) = Ret prod /\
    safe_sum df (col_good_qty m) = Ret good /\
    safe_sum df (col_defect_qty m) = Ret defect /\
    inventory_value df (col_inventory m) (col_unit_cost m) = Ret inv /\
    safe_ratio (gross (sales k) (cogs k)) (sales k) = Ret (gross_margin k) /\
    safe_ratio (op_profit (sales k) (cogs k) (fixed k) (labor k)) (sales k)
    = Ret (op_margin k) /\
    safe_ratio defect prod = Ret (defect_rate k) /\
    safe_ratio good prod = Ret (yield_rate k) /\
    on_time_rate df (col_due m) (col_ship m) = Ret (on_time k) /\
    safe_ratio inv (sales k) = Ret (inv_to_sales k).

(** ** The scalar code in binary64 *)

(** Python's [n / d] on floats, in binary64. *)
Definition truediv_f64 (n d : float) : res float :=
  if (d =? 0)%float then Raise ZeroDivisionError else Ret (n / d)%float.

(** [safe_ratio] on binary64 operands; [d in [None, 0]] holds for both
    zeros and for no other float. *)
Definition safe_ratio_f64 (n d : option float) : res (option float) :=
  match n, d with
  | None, _ => Ret None
  | Some _, None => Ret None
  | Some n', Some d' =>
      if (d' =? 0)%float then Ret None
      else q <- truediv_f64 n' d' ;; Ret (Some q)
  end.

(** The scorers on a binary64 value: [value >= good] is [good <= value]. *)
Definition score_by_threshold_f64 (value : option float) (good warn : float)
  : option Z :=
  match value with
  | None => None
  | Some v =>
      if (good <=? v)%float then Some 100%Z
      else if (warn <=? v)%float then Some 70%Z
      else Some 40%Z
  end.

Definition score_by_inverse_threshold_f64 (value : option float)
  (good warn : float) : option Z :=
  match value with
  | None => None
  | Some v =>
      if (v <=? good)%float then Some 100%Z
      else if (v <=? warn)%float then Some 70%Z
      else Some 40%Z
  end.

(** [v is not None and v < c], [v is not None and v > c] in binary64. *)
Definition below_f64 (v : option float) (c : float) : bool :=
  match v with
  | Some x => (x <? c)%float
  | None => false
  end.

Definition above_f64 (v : option float) (c : float) : bool :=
  match v with
  | Some x => (c <? x)%float
  | None => false
  end.

(** The three tip lists over binary64 KPI values. *)
Definition tips_profit_f64 (gross_margin op_margin : option float)
  : list string :=
  tips (below_f64 gross_margin 0.15) TIP_GROSS
       (below_f64 op_margin 0.05) TIP_OP
       TIP_PROFIT_OK.

Definition tips_quality_f64 (defect_rate yield_rate : option float)
  : list string :=
  tips (above_f64 defect_rate 0.03) TIP_DEFECT
       (below_f64 yield_rate 0.95) TIP_YIELD
       TIP_QUALITY_OK.

Definition tips_delivery_f64 (on_time_rate inv_to_sales : option float)
  : list string :=
  tips (below_f64 on_time_rate 0.90) TIP_LATE
       (above_f64 inv_to_sales 0.30) TIP_STOCK
       TIP_DELIVERY_OK.

(** A value that is NaN: the only float different from itself. *)
Definition is_nan_f64 (x : float) : bool := negb (x =? x)%float.

Definition nan_value (v : option float) : Prop :=
  exists x, v = Some x /\ is_nan_f64 x = true.

(** Python's conversion of an int to a float, for the scores. *)
Definition int_to_float (v : Z) : float :=
  if (v <? 0)%Z then (- of_uint63 (Uint63.of_Z (- v)))%float
  else of_uint63 (Uint63.of_Z v).

(** The weights as the doubles their literals denote. *)
Definition weights_f64 (k : kpi) : float :=
  match k with
  | GrossMargin => 0.22
  | OpMargin => 0.22
  | DefectRate => 0.18
  | YieldRate => 0.18
  | OnTime => 0.12
  | Inventory => 0.08
  end%float.

(** The built-in [sum] over floats.  Up to CPython 3.11 it adds from left
    to right; from CPython 3.12 it carries Neumaier's compensation and adds
    it at the end.  Either way the first float is added to the int 0. *)
Definition plain_sum (l : list float) : float :=
  fold_left PrimFloat.add l 0%float.

Fixpoint neumaier (l : list float) (f c : float) : float :=
  match l with
  | [] =>
      if negb (c =? 0)%float && (abs c <? infinity)%float
      then (f + c)%float else f
  | x :: l' =>
      let t := (f + x)%float in
      let c' := if (abs x <=? abs f)%float
                then (c + ((f - t) + x))%float
                else (c + ((x - t) + f))%float in
      neumaier l' t c'
  end.

Definition compensated_sum (l : list float) : float :=
  match l with
  | [] => 0%float
  | x :: l' => neumaier l' (0 + x)%float 0%float
  end.

(** [total_score] in binary64, for either [sum]. *)
Definition total_of_f64 (sum : list float -> float)
  (items : list (kpi * Z * Q)) : res (option float) :=
  match items with
  | [] => Ret None
  | _ :: _ =>
      t <- truediv_f64
             (sum (map (fun i => (int_to_float (item_value i)
                                  * weights_f64 (fst (fst i)))%float) items))
             (sum (map (fun i => weights_f64 (fst (fst i))) items)) ;;
      Ret (Some t)
  end.

Definition total_score_f64 (sum : list float -> float) (s : Scores)
  : res (option float) :=
  total_of_f64 sum (weighted_items (scores s)).

Definition py_sums (sum : list float -> float) : Prop :=
  sum = plain_sum \/ sum = compensated_sum.

(** The scores the two scorers can produce. *)
Definition score_options : list (option Z) :=
  [None; Some 100%Z; Some 70%Z; Some 40%Z].

Definition scorer_scores (s : Scores) : Prop :=
  In (s_gm s) score_options /\ In (s_om s) score_options /\
  In (s_def s) score_options /\ In (s_yield s) score_options /\
  In (s_otd s) score_options /\ In (s_inv s) score_options.

(** Every record of scorer-produced scores. *)
Definition all_score_sets : list Scores :=
  flat_map (fun a =>
  flat_map (fun b =>
  flat_map (fun c =>
  flat_map (fun d =>
  flat_map (fun e =>
  map (fun f => mkScores a b c d e f) score_options)
  score_options) score_options) score_options) score_options) score_options.

(** Within one unit in the last place of the interval [lo, hi]. *)
Definition within_ulp (lo hi : Z) (c : float) : bool :=
  (next_down (int_to_float lo) <=? c)%float
  && (c <=? next_up (int_to_float hi))%float.

Definition near_extremes (sum : list float -> float) (s : Scores) : bool :=
  match total_score_f64 sum s with
  | Ret (Some c) => within_ulp (min_scored s) (max_scored s) c
                    && within_ulp 40 100 c
  | Ret None => true
  | Raise _ => false
  end.

(** * Properties *)

(** ** Comparisons and the error monad *)

Lemma Qle_bool_false (x y : Q) : Qle_bool x y = false <-> y < x.
Proof.
  split; intro H.
  - apply Qnot_le_lt. intro Hle. apply Qle_bool_iff in Hle. congruence.
  - destruct (Qle_bool x y) eqn:E; [|reflexivity].
    apply Qle_bool_iff in E. exfalso. apply (Qlt_not_le _ _ H E).
Qed.

Lemma Qlt_bool_iff (x y : Q) : Qlt_bool x y = true <-> x < y.
Proof.
  unfold Qlt_bool. rewrite negb_true_iff. apply Qle_bool_false.
Qed.

Lemma Qeq_bool_false (x y : Q) : Qeq_bool x y = false <-> ~ x == y.
Proof.
  split.
  - apply Qeq_bool_neq.
  - intro H. destruct (Qeq_bool x y) eqn:E; [|reflexivity].
    apply Qeq_bool_iff in E. contradiction.
Qed.

Lemma truediv_nonzero (n d : Q) : ~ d == 0 -> truediv n d = Ret (n / d).
Proof.
  intro H. unfold truediv. apply Qeq_bool_false in H. now rewrite H.
Qed.

(** ** Threshold scorers *)

Lemma score_by_threshold_cases (v good warn : Q) :
  (good <= v /\ score_by_threshold (Some v) good warn = Some 100%Z) \/
  (v < good /\ warn <= v /\ score_by_threshold (Some v) good warn = Some 70%Z) \/
  (v < good /\ v < warn /\ score_by_threshold (Some v) good warn = Some 40%Z).
Proof.
  unfold score_by_threshold.
  destruct (Qle_bool good v) eqn:Eg.
  - left. split; [now apply Qle_bool_iff | reflexivity].
  - apply Qle_bool_false in Eg. right.
    destruct (Qle_bool warn v) eqn:Ew.
    + left. repeat split; [assumption | now apply Qle_bool_iff].
    + right. apply Qle_bool_false in Ew. now repeat split.
Qed.

Lemma score_by_inverse_threshold_cases (v good warn : Q) :
  (v <= good /\ score_by_inverse_threshold (Some v) good warn = Some 100%Z) \/
  (good < v /\ v <= warn
   /\ score_by_inverse_threshold (Some v) good warn = Some 70%Z) \/
  (good < v /\ warn < v
   /\ score_by_inverse_threshold (Some v) good warn = Some 40%Z).
Proof.
  unfold score_by_inverse_threshold.
  destruct (Qle_bool v good) eqn:Eg.
  - left. split; [now apply Qle_bool_iff | reflexivity].
  - apply Qle_bool_false in Eg. right.
    destruct (Qle_bool v warn) eqn:Ew.
    + left. repeat split; [assumption | now apply Qle_bool_iff].
    + right. apply Qle_bool_false in Ew. now repeat split.
Qed.

(** C1: with [good > warn] the ascending scorer gives 100 for
    [value >= good], 70 for [warn <= value < good] and 40 for
    [value < warn]; with [good < warn] the descending scorer gives 100 for
    [value <= good], 70 for [good < value <= warn] and 40 for
    [value > warn]; either scorer answers "unavailable" exactly on an
    unavailable input, and the value is compared as it is. *)
Theorem threshold_scorers_spec (ga wa gd wd : Q)
  (Hasc : wa < ga) (Hdesc : gd < wd) :
  (forall v, ga <= v -> score_by_threshold (Some v) ga wa = Some 100%Z) /\
  (forall v, wa <= v -> v < ga ->
             score_by_threshold (Some v) ga wa = Some 70%Z) /\
  (forall v, v < wa -> score_by_threshold (Some v) ga wa = Some 40%Z) /\
  (forall v, v <= gd ->
             score_by_inverse_threshold (Some v) gd wd = Some 100%Z) /\
  (forall v, gd < v -> v <= wd ->
             score_by_inverse_threshold (Some v) gd wd = Some 70%Z) /\
  (forall v, wd < v -> score_by_inverse_threshold (Some v) gd wd = Some 40%Z) /\
  (forall value, score_by_threshold value ga wa = None <-> value = None) /\
  (forall value,
      score_by_inverse_threshold value gd wd = None <-> value = None).
Proof.
  repeat split.
  - intros v H.
    destruct (score_by_threshold_cases v ga wa) as [[_ E]|[[L _]|[L _]]];
      [exact E | lra | lra].
  - intros v H1 H2.
    destruct (score_by_threshold_cases v ga wa) as [[L _]|[[_ [_ E]]|[_ [L _]]]];
      [lra | exact E | lra].
  - intros v H.
    destruct (score_by_threshold_cases v ga wa) as [[L _]|[[_ [L _]]|[_ [_ E]]]];
      [lra | lra | exact E].
  - intros v H.
    destruct (score_by_inverse_threshold_cases v gd wd)
      as [[_ E]|[[L _]|[L _]]]; [exact E | lra | lra].
  - intros v H1 H2.
    destruct (score_by_inverse_threshold_cases v gd wd)
      as [[L _]|[[_ [_ E]]|[_ [L _]]]]; [lra | exact E | lra].
  - intros v H.
    destruct (score_by_inverse_threshold_cases v gd wd)
      as [[L _]|[[_ [L _]]|[_ [_ E]]]]; [lra | lra | exact E].
  - destruct value as [v|]; [|reflexivity].
    destruct (score_by_threshold_cases v ga wa) as [[_ E]|[[_ [_ E]]|[_ [_ E]]]];
      rewrite E; discriminate.
  - intros ->. reflexivity.
  - destruct value as [v|]; [|reflexivity].
    destruct (score_by_inverse_threshold_cases v gd wd)
      as [[_ E]|[[_ [_ E]]|[_ [_ E]]]]; rewrite E; discriminate.
  - intros ->. reflexivity.
Qed.

Lemma threshold_scorers_witness :
  score_by_threshold (Some 0.20) 0.25 0.15 = Some 70%Z /\
  score_by_inverse_threshold (Some 0.012) 0.01 0.03 = Some 70%Z.
Proof.
  assert (Hasc : 0.15 < 0.25) by reflexivity.
  assert (Hdesc : 0.01 < 0.03) by reflexivity.
  destruct (threshold_scorers_spec 0.25 0.15 0.01 0.03 Hasc Hdesc)
    as (_ & A & _ & _ & D & _).
  split.
  - apply A; [discriminate | reflexivity].
  - apply D; [reflexivity | discriminate].
Defined.

(** ** Ratios *)

Lemma safe_ratio_returns (n d : option Q) : exists r, safe_ratio n d = Ret r.
Proof.
  destruct n as [n|], d as [d|]; simpl; eauto.
  unfold truediv. destruct (Qeq_bool d 0); simpl; eauto.
Qed.

(** ** Sums and weighted means *)

Lemma fold_left_Qplus (l : list Q) (a : Q) :
  fold_left Qplus l a == a + series_sum l.
Proof.
  revert a. induction l as [|x l IH]; intro a; simpl.
  - ring.
  - rewrite IH. ring.
Qed.

Lemma py_sum_series_sum (l : list Q) : py_sum l == series_sum l.
Proof.
  unfold py_sum. rewrite fold_left_Qplus. ring.
Qed.

Lemma weight_sum_nonneg (items : list (kpi * Z * Q)) :
  Forall (fun i => 0 < item_weight i) items ->
  0 <= series_sum (map item_weight items).
Proof.
  induction 1 as [|i items Hw _ IH]; simpl; lra.
Qed.

Lemma weight_sum_pos (i : kpi * Z * Q) (items : list (kpi * Z * Q)) :
  Forall (fun i => 0 < item_weight i) (i :: items) ->
  0 < series_sum (map item_weight (i :: items)).
Proof.
  intro H. inversion H as [|? ? Hw Hr]; subst. simpl.
  pose proof (weight_sum_nonneg items Hr). lra.
Qed.

Section WeightedMean.

Variables lo hi : Z.

Lemma within_weight (items : list (kpi * Z * Q)) :
  Forall (within lo hi) items -> Forall (fun i => 0 < item_weight i) items.
Proof.
  apply Forall_impl. intros i [_ H]. exact H.
Qed.

Lemma product_sum_bounds (items : list (kpi * Z * Q)) :
  Forall (within lo hi) items ->
  inject_Z lo * series_sum (map item_weight items)
    <= series_sum (map item_product items)
  /\ series_sum (map item_product items)
    <= inject_Z hi * series_sum (map item_weight items).
Proof.
  induction 1 as [|i items [[Hlo Hhi] Hw] _ [IHlo IHhi]]; simpl.
  - split; lra.
  - unfold item_product at 1 3.
    assert (Hl : inject_Z lo * item_weight i
                 <= inject_Z (item_value i) * item_weight i).
    { apply Qmult_le_compat_r; [now rewrite <- Zle_Qle | lra]. }
    assert (Hh : inject_Z (item_value i) * item_weight i
                 <= inject_Z hi * item_weight i).
    { apply Qmult_le_compat_r; [now rewrite <- Zle_Qle | lra]. }
    split; lra.
Qed.

(** A weighted mean of values in [lo, hi] with positive weights lies in
    [lo, hi]. *)
Lemma total_of_bounds (items : list (kpi * Z * Q)) (t : Q) :
  Forall (within lo hi) items ->
  total_of items = Ret (Some t) ->
  inject_Z lo <= t <= inject_Z hi.
Proof.
  intros Hall Ht. destruct items as [|i items]; [discriminate|].
  pose proof (weight_sum_pos i items (within_weight _ Hall)) as Hpos.
  destruct (product_sum_bounds (i :: items) Hall) as [Hlo Hhi].
  unfold total_of, truediv in Ht.
  fold item_product in Ht. fold item_weight in Ht.
  change (fun i0 : kpi * Z * Q => inject_Z (snd (fst i0)) * snd i0)
    with item_product in Ht.
  change (fun i0 : kpi * Z * Q => snd i0) with item_weight in Ht.
  destruct (Qeq_bool (py_sum (map item_weight (i :: items))) 0);
    [discriminate|].
  simpl in Ht. injection Ht as <-.
  rewrite <- (py_sum_series_sum (map item_weight (i :: items))) in Hpos, Hlo, Hhi.
  rewrite <- (py_sum_series_sum (map item_product (i :: items))) in Hlo, Hhi.
  split.
  - apply Qle_shift_div_l; assumption.
  - apply Qle_shift_div_r; assumption.
Qed.

End WeightedMean.

Lemma weights_pos (k : kpi) : 0 < weights k.
Proof. destruct k; reflexivity. Qed.

Lemma weighted_items_weight (d : list (kpi * option Z)) :
  Forall (fun i => 0 < item_weight i) (weighted_items d).
Proof.
  induction d as [|[k [v|]] d IH]; simpl; auto.
  constructor; [apply weights_pos | exact IH].
Qed.

(** The composite never raises: the weights that are summed are positive. *)
Lemma total_of_weighted_items (d : list (kpi * option Z)) :
  match weighted_items d with
  | [] => total_of (weighted_items d) = Ret None
  | _ :: _ =>
      total_of (weighted_items d)
      = Ret (Some (py_sum (map item_product (weighted_items d))
                   / py_sum (map item_weight (weighted_items d))))
  end.
Proof.
  pose proof (weighted_items_weight d) as Hw.
  destruct (weighted_items d) as [|i items] eqn:E; [reflexivity|].
  pose proof (weight_sum_pos i items Hw) as Hpos.
  unfold total_of.
  change (fun i0 : kpi * Z * Q => inject_Z (snd (fst i0)) * snd i0)
    with item_product.
  change (fun i0 : kpi * Z * Q => snd i0) with item_weight.
  rewrite truediv_nonzero; [reflexivity|].
  rewrite py_sum_series_sum. intro Hz. rewrite Hz in Hpos.
  discriminate.
Qed.

Lemma total_score_returns (s : Scores) : exists t, total_score s = Ret t.
Proof.
  unfold total_score. pose proof (total_of_weighted_items (scores s)) as H.
  destruct (weighted_items (scores s)); eauto.
Qed.

(** ** The composite score *)

Lemma weighted_items_products (d : list (kpi * option Z)) :
  series_sum (map item_product (weighted_items d))
  == series_sum (map contribution d).
Proof.
  induction d as [|[k [v|]] d IH]; simpl.
  - reflexivity.
  - unfold item_product at 1, contribution at 1. simpl. rewrite IH. reflexivity.
  - unfold contribution at 1. simpl. rewrite IH. ring.
Qed.

Lemma weighted_items_weights (d : list (kpi * option Z)) :
  series_sum (map item_weight (weighted_items d))
  == series_sum (map counted_weight d).
Proof.
  induction d as [|[k [v|]] d IH]; simpl.
  - reflexivity.
  - unfold item_weight at 1, counted_weight at 1. simpl. rewrite IH. reflexivity.
  - unfold counted_weight at 1. simpl. rewrite IH. ring.
Qed.

Lemma weighted_items_empty (s : Scores) :
  weighted_items (scores s) = [] <-> all_unavailable s.
Proof.
  unfold all_unavailable. destruct s as [a b c d e f]; simpl. split.
  - destruct a, b, c, d, e, f; simpl; intro H; try discriminate H.
    repeat split.
  - intros (-> & -> & -> & -> & -> & ->). reflexivity.
Qed.

(** C2: the composite is "unavailable" exactly when all six scores are;
    otherwise it is the sum of score times weight divided by the sum of
    weights, both sums running over the available scores only, so that an
    unavailable KPI adds nothing to either sum. *)
Theorem composite_score_spec (s : Scores) :
  (total_score s = Ret None <-> all_unavailable s) /\
  (~ all_unavailable s ->
   exists t, total_score s = Ret (Some t) /\
             0 < spec_denominator s /\
             t == spec_numerator s / spec_denominator s).
Proof.
  unfold total_score.
  pose proof (total_of_weighted_items (scores s)) as H.
  pose proof (weighted_items_empty s) as He.
  pose proof (weighted_items_weight (scores s)) as Hw.
  pose proof (weighted_items_products (scores s)) as Hn.
  pose proof (weighted_items_weights (scores s)) as Hd.
  fold (spec_numerator s) in Hn. fold (spec_denominator s) in Hd.
  destruct (weighted_items (scores s)) as [|i items].
  - split.
    + split; [intros _; now apply He | intros _; exact H].
    + intro Hn'. exfalso. apply Hn'. now apply He.
  - split.
    + split.
      * rewrite H. discriminate.
      * intro Ha. apply He in Ha. discriminate.
    + intros _. eexists. split; [exact H|].
      pose proof (weight_sum_pos i items Hw) as Hpos.
      split.
      * rewrite <- Hd. exact Hpos.
      * rewrite !py_sum_series_sum, Hn, Hd. reflexivity.
Qed.

Lemma composite_score_witness :
  exists t, total_score (mkScores (Some 100%Z) None None None (Some 40%Z) None)
            = Ret (Some t)
            /\ t == (100 * 0.22 + 40 * 0.12) / (0.22 + 0.12).
Proof.
  destruct (composite_score_spec
              (mkScores (Some 100%Z) None None None (Some 40%Z) None))
    as [_ H].
  destruct H as (t & Ht & _ & Hq).
  - unfold all_unavailable; simpl. intros (H & _). discriminate H.
  - exists t. split; [exact Ht|]. rewrite Hq. reflexivity.
Defined.

Lemma fold_min_le (x : Z) (r : list Z) :
  (fold_right Z.min x r <= x)%Z /\
  Forall (fun y => (fold_right Z.min x r <= y)%Z) r.
Proof.
  induction r as [|y r [IHx IHr]]; simpl.
  - split; [lia | constructor].
  - split; [lia|]. constructor; [lia|].
    eapply Forall_impl; [|exact IHr]. simpl. intros; lia.
Qed.

Lemma fold_max_ge (x : Z) (r : list Z) :
  (x <= fold_right Z.max x r)%Z /\
  Forall (fun y => (y <= fold_right Z.max x r)%Z) r.
Proof.
  induction r as [|y r [IHx IHr]]; simpl.
  - split; [lia | constructor].
  - split; [lia|]. constructor; [lia|].
    eapply Forall_impl; [|exact IHr]. simpl. intros; lia.
Qed.

Lemma scored_between_extremes (s : Scores) :
  Forall (fun v => (min_scored s <= v <= max_scored s)%Z) (scored s).
Proof.
  unfold min_scored, max_scored.
  destruct (scored s) as [|x r]; [constructor|].
  destruct (fold_min_le x r) as [Hx Hr], (fold_max_ge x r) as [Gx Gr].
  constructor; [lia|].
  rewrite Forall_forall in *. intros y Hy. split; [now apply Hr | now apply Gr].
Qed.

Lemma weighted_items_within (lo hi : Z) (s : Scores) :
  Forall (fun v => (lo <= v <= hi)%Z) (scored s) ->
  Forall (within lo hi) (weighted_items (scores s)).
Proof.
  unfold scored. intro H. pose proof (weighted_items_weight (scores s)) as Hw.
  rewrite Forall_forall in *. intros i Hi. split.
  - apply H. now apply in_map.
  - now apply Hw.
Qed.

Lemma score_by_threshold_values (value : option Q) (good warn : Q) (x : Z) :
  score_by_threshold value good warn = Some x ->
  (x = 100 \/ x = 70 \/ x = 40)%Z.
Proof.
  destruct value as [v|]; [|discriminate].
  destruct (score_by_threshold_cases v good warn)
    as [[_ E]|[[_ [_ E]]|[_ [_ E]]]]; rewrite E; intro H; injection H as <-;
    auto.
Qed.

Lemma score_by_inverse_threshold_values (value : option Q) (good warn : Q)
  (x : Z) :
  score_by_inverse_threshold value good warn = Some x ->
  (x = 100 \/ x = 70 \/ x = 40)%Z.
Proof.
  destruct value as [v|]; [|discriminate].
  destruct (score_by_inverse_threshold_cases v good warn)
    as [[_ E]|[[_ [_ E]]|[_ [_ E]]]]; rewrite E; intro H; injection H as <-;
    auto.
Qed.

Lemma scored_origin (s : Scores) (x : Z) :
  In x (scored s) ->
  s_gm s = Some x \/ s_om s = Some x \/ s_def s = Some x \/
  s_yield s = Some x \/ s_otd s = Some x \/ s_inv s = Some x.
Proof.
  unfold scored. destruct s as [a b c d e f]; simpl.
  destruct a, b, c, d, e, f; simpl; intuition (subst; auto).
Qed.

Lemma score_all_values (k : Kpis) (x : Z) :
  In x (scored (score_all k)) -> (x = 100 \/ x = 70 \/ x = 40)%Z.
Proof.
  intro H. apply scored_origin in H. simpl in H.
  destruct H as [H|[H|[H|[H|[H|H]]]]].
  - eapply score_by_threshold_values; exact H.
  - eapply score_by_threshold_values; exact H.
  - eapply score_by_inverse_threshold_values; exact H.
  - eapply score_by_threshold_values; exact H.
  - eapply score_by_threshold_values; exact H.
  - unfold score_inv in H. destruct (inv_to_sales k); [|discriminate].
    eapply score_by_inverse_threshold_values; exact H.
Qed.

(** ** The pipeline returns on every well-mapped table *)

Lemma getitem_in (df : DataFrame) (col : string) :
  In col (columns df) -> getitem df col = Ret (map (fun r => r col) (rows df)).
Proof.
  intro H. unfold getitem.
  assert (E : existsb (String.eqb col) (columns df) = true).
  { apply existsb_exists. exists col. split; [exact H | apply String.eqb_refl]. }
  now rewrite E.
Qed.

Lemma is_unset_true (col : string) : is_unset col = true <-> col = UNSET.
Proof. apply String.eqb_eq. Qed.

Lemma is_unset_false (col : string) : is_unset col = false <-> col <> UNSET.
Proof. apply String.eqb_neq. Qed.

Lemma safe_sum_unset (df : DataFrame) : safe_sum df UNSET = Ret None.
Proof. reflexivity. Qed.

Lemma safe_sum_mapped (df : DataFrame) (col : string) :
  col <> UNSET -> In col (columns df) ->
  safe_sum df col
  = Ret (Some (series_sum (fillna 0 (to_num (map (fun r => r col) (rows df)))))).
Proof.
  intros Hn Hin. unfold safe_sum. apply is_unset_false in Hn. rewrite Hn.
  now rewrite getitem_in.
Qed.

Lemma safe_sum_returns (df : DataFrame) (col : string) :
  selectable df col ->
  exists v, safe_sum df col = Ret v /\ (v = None <-> col = UNSET).
Proof.
  intro H. destruct (String.eqb_spec col UNSET) as [-> | Hn].
  - exists None. split; [reflexivity | tauto].
  - destruct H as [H|H]; [contradiction|].
    eexists. split; [now apply safe_sum_mapped|]. split; [discriminate | contradiction].
Qed.

Lemma on_time_rate_returns (df : DataFrame) (c_due c_ship : string) :
  selectable df c_due -> selectable df c_ship ->
  exists v, on_time_rate df c_due c_ship = Ret v.
Proof.
  intros Hd Hs. unfold on_time_rate.
  destruct (is_unset c_due) eqn:Ed; simpl; [eauto|].
  destruct (is_unset c_ship) eqn:Es; simpl; [eauto|].
  apply is_unset_false in Ed, Es.
  destruct Hd as [?|Hd]; [contradiction|]. destruct Hs as [?|Hs]; [contradiction|].
  rewrite !getitem_in by assumption. simpl.
  match goal with |- context [if ?b then _ else _] => destruct b end; eauto.
Qed.

Lemma inventory_value_returns (df : DataFrame) (c_inv c_cost : string) :
  selectable df c_inv -> selectable df c_cost ->
  exists v, inventory_value df c_inv c_cost = Ret v.
Proof.
  intros Hi Hc. unfold inventory_value.
  destruct (is_unset c_inv) eqn:Ei; simpl; [eauto|].
  destruct (is_unset c_cost) eqn:Ec; simpl; [eauto|].
  apply is_unset_false in Ei, Ec.
  destruct Hi as [?|Hi]; [contradiction|]. destruct Hc as [?|Hc]; [contradiction|].
  rewrite !getitem_in by assumption. simpl. eauto.
Qed.

(** On a well-mapped table the KPI calculator raises nothing; the sums and
    the two margins it returns are the ones of the helpers. *)
Lemma compute_kpis_returns (df : DataFrame) (m : Mapping) :
  well_mapped df m ->
  exists k, compute_kpis df m = Ret k /\
    safe_sum df (col_sales m) = Ret (sales k) /\
    safe_sum df (col_cogs m) = Ret (cogs k) /\
    safe_sum df (col_fixed m) = Ret (fixed k) /\
    safe_sum df (col_labor m) = Ret (labor k) /\
    safe_ratio (gross (sales k) (cogs k)) (sales k) = Ret (gross_margin k) /\
    safe_ratio (op_profit (sales k) (cogs k) (fixed k) (labor k)) (sales k)
    = Ret (op_margin k).
Proof.
  intros (H1 & H2 & H3 & H4 & H5 & H6 & H7 & H8 & H9 & H10 & H11).
  unfold compute_kpis.
  destruct (safe_sum_returns df _ H1) as (v1 & E1 & _).
  destruct (safe_sum_returns df _ H2) as (v2 & E2 & _).
  destruct (safe_sum_returns df _ H3) as (v3 & E3 & _).
  destruct (safe_sum_returns df _ H4) as (v4 & E4 & _).
  destruct (safe_sum_returns df _ H5) as (v5 & E5 & _).
  destruct (safe_sum_returns df _ H6) as (v6 & E6 & _).
  destruct (safe_sum_returns df _ H7) as (v7 & E7 & _).
  destruct (on_time_rate_returns df _ _ H8 H9) as (v8 & E8).
  destruct (inventory_value_returns df _ _ H10 H11) as (v9 & E9).
  destruct (safe_ratio_returns (gross v1 v2) v1) as (g & Eg).
  destruct (safe_ratio_returns (op_profit v1 v2 v3 v4) v1) as (o & Eo).
  destruct (safe_ratio_returns v7 v5) as (dr & Edr).
  destruct (safe_ratio_returns v6 v5) as (yr & Eyr).
  destruct (safe_ratio_returns v9 v1) as (iv & Eiv).
  rewrite E1; simpl. rewrite E2; simpl. rewrite E3; simpl. rewrite E4; simpl.
  rewrite Eg; simpl. rewrite Eo; simpl.
  rewrite E5; simpl. rewrite E6; simpl. rewrite E7; simpl.
  rewrite Edr; simpl. rewrite Eyr; simpl. rewrite E8; simpl.
  rewrite E9; simpl. rewrite Eiv; simpl.
  eexists. split; [reflexivity|]. simpl. auto 10.
Qed.

Lemma diagnose_returns (df : DataFrame) (m : Mapping) :
  well_mapped df m ->
  exists k t, compute_kpis df m = Ret k /\
    diagnose df m
    = Ret (mkDiagnosis k (score_all k) t
                       (tips_profit k) (tips_quality k) (tips_delivery k)).
Proof.
  intro H. destruct (compute_kpis_returns df m H) as (k & Ek & _).
  destruct (total_score_returns (score_all k)) as (t & Et).
  exists k, t. split; [exact Ek|].
  unfold diagnose. rewrite Ek; simpl. rewrite Et; simpl. reflexivity.
Qed.

(** ** Margins *)

Lemma minus_if_set_or_zero (p : Q) (x : option Q) :
  minus_if_set p x == p - or_zero x.
Proof. destruct x; simpl; ring. Qed.

Lemma Ret_inj {A : Type} (a b : A) : Ret a = Ret b -> a = b.
Proof. intro H. now injection H. Qed.

(** C5: once the sales sum is available, operating profit is sales minus
    every available cost component, an unset component counting as 0;
    gross margin is "unavailable" as soon as sales or cogs is.  With sales
    mapped and the three cost roles unset, operating margin is the ratio
    sales / sales (by [safe_ratio]: the quotient for non-zero sales) while
    gross margin is "unavailable". *)
Theorem operating_margin_asymmetry (df : DataFrame) (m : Mapping)
  (Hmap : well_mapped df m) :
  exists k, compute_kpis df m = Ret k /\
    (safe_sum df (col_sales m) = Ret (sales k) /\
     safe_sum df (col_cogs m) = Ret (cogs k) /\
     safe_sum df (col_fixed m) = Ret (fixed k) /\
     safe_sum df (col_labor m) = Ret (labor k)) /\
    (forall s, sales k = Some s ->
       exists p, op_profit (sales k) (cogs k) (fixed k) (labor k) = Some p /\
                 p == s - or_zero (cogs k) - or_zero (fixed k)
                        - or_zero (labor k) /\
                 safe_ratio (Some p) (Some s) = Ret (op_margin k)) /\
    (sales k = None \/ cogs k = None -> gross_margin k = None) /\
    (col_sales m <> UNSET -> col_cogs m = UNSET ->
     col_fixed m = UNSET -> col_labor m = UNSET ->
       exists s, sales k = Some s /\
                 gross_margin k = None /\
                 safe_ratio (Some s) (Some s) = Ret (op_margin k) /\
                 (~ s == 0 -> op_margin k = Some (s / s))).
Proof.
  destruct (compute_kpis_returns df m Hmap)
    as (k & Ek & Es & Ec & Ef & El & Eg & Eo).
  exists k. split; [exact Ek|]. split; [auto|].
  assert (Hgross : sales k = None \/ cogs k = None -> gross_margin k = None).
  { intros [H|H]; rewrite H in Eg.
    - simpl in Eg. symmetry. now apply Ret_inj in Eg.
    - destruct (sales k); simpl in Eg; symmetry; now apply Ret_inj in Eg. }
  split; [|split; [exact Hgross|]].
  - intros s Hs. rewrite Hs in Eo |- *. simpl in *.
    eexists. split; [reflexivity|]. split; [|exact Eo].
    rewrite !minus_if_set_or_zero. reflexivity.
  - intros Hsales Hc Hf Hl.
    rewrite Hc in Ec. rewrite Hf in Ef. rewrite Hl in El.
    rewrite safe_sum_unset in Ec, Ef, El.
    apply Ret_inj in Ec, Ef, El.
    destruct Hmap as (Sel & _).
    destruct (safe_sum_returns df _ Sel) as (v & Ev & Hv).
    rewrite Ev in Es. apply Ret_inj in Es. subst v.
    destruct (sales k) as [s|] eqn:Hs; [|exfalso; apply Hsales; now apply Hv].
    exists s. split; [reflexivity|]. split; [apply Hgross; now right|].
    rewrite <- Ec, <- Ef, <- El in Eo. simpl in Eo.
    split; [exact Eo|].
    intro Hnz. apply Qeq_bool_false in Hnz. rewrite Hnz in Eo.
    unfold truediv in Eo. rewrite Hnz in Eo. simpl in Eo.
    symmetry. now apply Ret_inj in Eo.
Qed.

Lemma ledger_well_mapped : well_mapped ledger sales_only.
Proof.
  unfold well_mapped, selectable; simpl. repeat split; auto.
Defined.

Lemma operating_margin_asymmetry_witness :
  exists k q, compute_kpis ledger sales_only = Ret k /\
              gross_margin k = None /\
              op_margin k = Some q /\ q == 1.
Proof.
  destruct (operating_margin_asymmetry ledger sales_only ledger_well_mapped)
    as (k & Ek & _ & _ & _ & H).
  destruct H as (s & Hs & Hg & _ & Ho); try reflexivity; [discriminate|].
  vm_compute in Ek. apply Ret_inj in Ek. subst k.
  simpl in Hs. injection Hs as <-.
  exists (mkKpis (Some 300) None None None None (Some (300 # 300))
                 None None None None), (300 / 300).
  split; [reflexivity|]. split; [reflexivity|].
  split; [apply Ho; discriminate | reflexivity].
Defined.

(** ** Columns without a parseable cell *)

Lemma unparseable_to_num (l : list (string -> cell)) (col : string) :
  (forall r, In r l -> as_number (r col) = None) ->
  dropna (to_num (map (fun r => r col) l)) = [] /\
  series_sum (fillna 0 (to_num (map (fun r => r col) l))) == 0.
Proof.
  induction l as [|r l IH]; intro H; simpl.
  - split; reflexivity.
  - rewrite (H r (or_introl eq_refl)).
    destruct IH as [IH1 IH2]; [intros r' Hr'; apply H; now right|].
    split; [exact IH1|]. rewrite IH2. reflexivity.
Qed.

(** C6 as the code has it: over a mapped column without a parseable cell
    neither helper raises; the mean is "unavailable" and the sum is the
    number 0, which as a denominator makes a ratio "unavailable"; an
    unavailable value stays unavailable through [safe_ratio] and both
    scorers. *)
Theorem unparseable_column (df : DataFrame) (col : string)
  (Hset : col <> UNSET) (Hin : In col (columns df))
  (Hjunk : unparseable df col) :
  safe_mean df col = Ret None /\
  (exists s, safe_sum df col = Ret (Some s) /\ s == 0 /\
             forall n, safe_ratio n (Some s) = Ret None) /\
  (forall d, safe_ratio None d = Ret None) /\
  (forall n, safe_ratio n None = Ret None) /\
  (forall good warn, score_by_threshold None good warn = None) /\
  (forall good warn, score_by_inverse_threshold None good warn = None).
Proof.
  destruct (unparseable_to_num (rows df) col Hjunk) as [Hd Hs].
  split; [|split; [|split; [|split; [|split]]]].
  - unfold safe_mean. apply is_unset_false in Hset. rewrite Hset.
    rewrite getitem_in by exact Hin. simpl. now rewrite Hd.
  - eexists. split; [now apply safe_sum_mapped|]. split; [exact Hs|].
    intros [n|]; [|reflexivity]. simpl.
    apply Qeq_bool_iff in Hs. now rewrite Hs.
  - reflexivity.
  - intros [n|]; reflexivity.
  - reflexivity.
  - reflexivity.
Qed.

Lemma notes_memo_unparseable : unparseable notes "memo".
Proof.
  intros r [<-|[<-|[]]]; reflexivity.
Defined.

Lemma unparseable_column_witness :
  safe_mean notes "memo" = Ret None /\
  exists s, safe_sum notes "memo" = Ret (Some s) /\ s == 0.
Proof.
  destruct (unparseable_column notes "memo") as (Hm & (s & Hs & Hz & _) & _).
  - discriminate.
  - simpl. auto.
  - exact notes_memo_unparseable.
  - split; [exact Hm|]. exists s. split; assumption.
Defined.

(** C6 as stated fails: the sum over a mapped column without a parseable
    cell is the number 0, not "unavailable", and as the numerator of the
    defect rate it is scored 100. *)
Lemma unparseable_sum_is_zero :
  unparseable notes "memo" /\
  safe_sum notes "memo" = Ret (Some 0) /\
  safe_sum notes "memo" <> Ret None /\
  exists d,
    diagnose notes (mkMapping UNSET UNSET UNSET UNSET "qty" UNSET "memo"
                              UNSET UNSET UNSET UNSET) = Ret d /\
    defect_rate (d_kpis d) = Some (0 / 1500) /\
    s_def (d_scores d) = Some 100%Z.
Proof.
  split; [exact notes_memo_unparseable|].
  split; [reflexivity|]. split; [discriminate|].
  eexists. split; [reflexivity|]. split; reflexivity.
Qed.

(** ** Breakdowns *)

(** C7 fails in both breakdowns: a group whose summed produced quantity is
    0 gets the ratio +inf from the element-wise division, although the
    ratio of the same sums through [safe_ratio] is "unavailable". *)
Theorem breakdown_zero_denominator :
  (exists r, breakdown_by_item idle_item idle_mapping "item" = Ret (Some r) /\
             map group_key r = ["A"] /\ map ratio r = [PosInf]) /\
  (exists r, breakdown_by_line idle_item idle_mapping "line" = Ret (Some r) /\
             map group_key r = ["L1"] /\ map ratio r = [PosInf]) /\
  (exists k, compute_kpis idle_item idle_mapping = Ret k /\
             defect_rate k = None /\ yield_rate k = None).
Proof.
  split; [|split]; eexists; (split; [reflexivity|]); split; reflexivity.
Qed.

(** ** On-time rate *)

Lemma map2_map {A B C D : Type} (f : B -> C -> D) (g : A -> B) (h : A -> C)
  (l : list A) :
  map2 f (map g l) (map h l) = map (fun x => f (g x) (h x)) l.
Proof.
  unfold map2. induction l as [|x l IH]; simpl; [reflexivity|].
  now rewrite IH.
Qed.

Lemma mask_map_filter {A B : Type} (g : A -> B) (p : A -> bool) (l : list A) :
  mask (map g l) (map p l) = map g (filter p l).
Proof.
  induction l as [|x l IH]; simpl; [reflexivity|].
  destruct (p x); simpl; now rewrite IH.
Qed.

Lemma existsb_map_filter {A : Type} (p : A -> bool) (l : list A) :
  existsb id (map p l) = match filter p l with [] => false | _ :: _ => true end.
Proof.
  induction l as [|x l IH]; simpl; [reflexivity|].
  unfold id at 1. destruct (p x); simpl; [reflexivity | exact IH].
Qed.

Lemma count_true_map {A : Type} (p : A -> bool) (l : list A) :
  count_true (map p l) = List.length (filter p l).
Proof.
  unfold count_true. induction l as [|x l IH]; simpl; [reflexivity|].
  unfold id at 1. destruct (p x); simpl; now rewrite IH.
Qed.

(** The column-wise computation of the script is the row-wise fraction. *)
Lemma on_time_rate_mapped (df : DataFrame) (c_due c_ship : string) :
  c_due <> UNSET -> c_ship <> UNSET ->
  In c_due (columns df) -> In c_ship (columns df) ->
  on_time_rate df c_due c_ship
  = Ret (match dated_rows df c_due c_ship with
         | [] => None
         | _ :: _ => Some (on_time_fraction df c_due c_ship)
         end).
Proof.
  intros Hd Hs Id Is. unfold on_time_rate.
  apply is_unset_false in Hd, Hs. rewrite Hd, Hs. simpl.
  rewrite !getitem_in by assumption. simpl.
  unfold to_datetime. rewrite !map_map.
  rewrite (map2_map (fun x y => notna x && notna y)
                    (fun r => as_date (r c_due)) (fun r => as_date (r c_ship))).
  change (fun x : string -> cell =>
            notna (as_date (x c_due)) && notna (as_date (x c_ship)))
    with (both_parse c_due c_ship).
  rewrite existsb_map_filter, !mask_map_filter.
  fold (dated_rows df c_due c_ship).
  destruct (dated_rows df c_due c_ship) as [|r l] eqn:E; [reflexivity|].
  rewrite (map2_map date_le).
  change (fun x : string -> cell =>
            date_le (as_date (x c_ship)) (as_date (x c_due)))
    with (shipped_on_time c_due c_ship).
  unfold bool_mean, on_time_fraction.
  rewrite count_true_map, length_map, E. reflexivity.
Qed.



(** ** Tips *)

Lemma below_fires (v : option Q) (c : Q) :
  below v c = true <-> fires_below v c.
Proof.
  unfold below, fires_below. destruct v as [x|].
  - rewrite Qlt_bool_iff. split.
    + intro H. exists x. now split.
    + intros (y & E & H). injection E as ->. exact H.
  - split; [discriminate | intros (y & E & _); discriminate].
Qed.

Lemma above_fires (v : option Q) (c : Q) :
  above v c = true <-> fires_above v c.
Proof.
  unfold above, fires_above. destruct v as [x|].
  - rewrite Qlt_bool_iff. split.
    + intro H. exists x. now split.
    + intros (y & E & H). injection E as ->. exact H.
  - split; [discriminate | intros (y & E & _); discriminate].
Qed.

(** The tip list of a domain: every firing rule contributes, in order, and
    the fallback stands alone when none fires. *)
Lemma tips_cases (r1 r2 : bool) (t1 t2 fallback : string) :
  tips r1 t1 r2 t2 fallback
  = match r1, r2 with
    | true, true => [t1; t2]
    | true, false => [t1]
    | false, true => [t2]
    | false, false => [fallback]
    end.
Proof. destruct r1, r2; reflexivity. Qed.

Lemma tips_domain (r1 r2 : bool) (t1 t2 fallback : string) :
  (1 <= List.length (tips r1 t1 r2 t2 fallback))%nat /\
  (r1 = true -> In t1 (tips r1 t1 r2 t2 fallback)) /\
  (r2 = true -> In t2 (tips r1 t1 r2 t2 fallback)) /\
  (r1 <> true -> r2 <> true -> tips r1 t1 r2 t2 fallback = [fallback]).
Proof.
  rewrite tips_cases. destruct r1, r2; simpl; repeat split; auto;
    try discriminate; try contradiction; intros; congruence.
Qed.

Lemma compute_kpis_derived (df : DataFrame) (m : Mapping) :
  well_mapped df m ->
  exists k, compute_kpis df m = Ret k /\ derived_kpis df m k.
Proof.
  intros (H1 & H2 & H3 & H4 & H5 & H6 & H7 & H8 & H9 & H10 & H11).
  unfold compute_kpis, derived_kpis.
  destruct (safe_sum_returns df _ H1) as (v1 & E1 & _).
  destruct (safe_sum_returns df _ H2) as (v2 & E2 & _).
  destruct (safe_sum_returns df _ H3) as (v3 & E3 & _).
  destruct (safe_sum_returns df _ H4) as (v4 & E4 & _).
  destruct (safe_sum_returns df _ H5) as (v5 & E5 & _).
  destruct (safe_sum_returns df _ H6) as (v6 & E6 & _).
  destruct (safe_sum_returns df _ H7) as (v7 & E7 & _).
  destruct (on_time_rate_returns df _ _ H8 H9) as (v8 & E8).
  destruct (inventory_value_returns df _ _ H10 H11) as (v9 & E9).
  destruct (safe_ratio_returns (gross v1 v2) v1) as (g & Eg).
  destruct (safe_ratio_returns (op_profit v1 v2 v3 v4) v1) as (o & Eo).
  destruct (safe_ratio_returns v7 v5) as (dr & Edr).
  destruct (safe_ratio_returns v6 v5) as (yr & Eyr).
  destruct (safe_ratio_returns v9 v1) as (iv & Eiv).
  rewrite E1; simpl. rewrite E2; simpl. rewrite E3; simpl. rewrite E4; simpl.
  rewrite Eg; simpl. rewrite Eo; simpl.
  rewrite E5; simpl. rewrite E6; simpl. rewrite E7; simpl.
  rewrite Edr; simpl. rewrite Eyr; simpl. rewrite E8; simpl.
  rewrite E9; simpl. rewrite Eiv; simpl.
  eexists. split; [reflexivity|]. simpl.
  exists v5, v6, v7, v9. auto 20.
Qed.

(** C9: on every well-mapped table the run returns; its KPI values are the
    ones the calculator derives from the table, its scores are the scores
    of those values, and each of the three domains yields at least one
    tip: every rule that fires on those raw KPI values contributes its
    tip, and a domain in which no rule fires yields exactly its fixed
    positive tip. *)
Theorem advisory_tips_spec (df : DataFrame) (m : Mapping)
  (Hmap : well_mapped df m) :
  exists k d,
    compute_kpis df m = Ret k /\ derived_kpis df m k /\
    diagnose df m = Ret d /\ d_kpis d = k /\ d_scores d = score_all k /\
    ((1 <= List.length (d_profit d))%nat /\
     (fires_below (gross_margin k) 0.15 -> In TIP_GROSS (d_profit d)) /\
     (fires_below (op_margin k) 0.05 -> In TIP_OP (d_profit d)) /\
     (~ fires_below (gross_margin k) 0.15 ->
      ~ fires_below (op_margin k) 0.05 ->
      d_profit d = [TIP_PROFIT_OK])) /\
    ((1 <= List.length (d_quality d))%nat /\
     (fires_above (defect_rate k) 0.03 -> In TIP_DEFECT (d_quality d)) /\
     (fires_below (yield_rate k) 0.95 -> In TIP_YIELD (d_quality d)) /\
     (~ fires_above (defect_rate k) 0.03 ->
      ~ fires_below (yield_rate k) 0.95 ->
      d_quality d = [TIP_QUALITY_OK])) /\
    ((1 <= List.length (d_delivery d))%nat /\
     (fires_below (on_time k) 0.90 -> In TIP_LATE (d_delivery d)) /\
     (fires_above (inv_to_sales k) 0.30 -> In TIP_STOCK (d_delivery d)) /\
     (~ fires_below (on_time k) 0.90 ->
      ~ fires_above (inv_to_sales k) 0.30 ->
      d_delivery d = [TIP_DELIVERY_OK])).
Proof.
  destruct (compute_kpis_derived df m Hmap) as (k & Ek & Hk).
  destruct (total_score_returns (score_all k)) as (t & Et).
  exists k. eexists.
  split; [exact Ek|]. split; [exact Hk|].
  split; [unfold diagnose; rewrite Ek; simpl; rewrite Et; reflexivity|].
  simpl. split; [reflexivity|]. split; [reflexivity|].
  unfold tips_profit, tips_quality, tips_delivery.
  rewrite <- !below_fires, <- !above_fires.
  split; [|split]; apply tips_domain.
Qed.

Lemma empty_table_well_mapped : well_mapped (table [] []) unmapped.
Proof.
  unfold well_mapped, selectable; simpl. repeat split; auto.
Defined.

Lemma costly_notes_well_mapped :
  well_mapped notes (mkMapping "qty" "qty" UNSET UNSET UNSET UNSET UNSET
                               UNSET UNSET UNSET UNSET).
Proof.
  unfold well_mapped, selectable; simpl. repeat split; auto.
Defined.

Lemma advisory_tips_witness :
  (exists d, diagnose (table [] []) unmapped = Ret d /\
             d_total d = None /\
             d_profit d = [TIP_PROFIT_OK] /\
             d_quality d = [TIP_QUALITY_OK] /\
             d_delivery d = [TIP_DELIVERY_OK]) /\
  (exists d, diagnose notes (mkMapping "qty" "qty" UNSET UNSET UNSET UNSET
                                       UNSET UNSET UNSET UNSET UNSET) = Ret d /\
             gross_margin (d_kpis d) = Some (0 / 1500) /\
             In TIP_GROSS (d_profit d) /\ In TIP_OP (d_profit d) /\
             d_quality d = [TIP_QUALITY_OK]).
Proof.
  split.
  - destruct (advisory_tips_spec (table [] []) unmapped empty_table_well_mapped)
      as (k & d & Ek & _ & Ed & Hd & _
          & (_ & _ & _ & P) & (_ & _ & _ & Q') & (_ & _ & _ & D)).
    exists d. vm_compute in Ek. apply Ret_inj in Ek. subst k.
    split; [exact Ed|].
    split; [vm_compute in Ed; apply Ret_inj in Ed; now subst d|].
    simpl in *. split; [|split].
    + apply P; intros (x & E & _); discriminate E.
    + apply Q'; intros (x & E & _); discriminate E.
    + apply D; intros (x & E & _); discriminate E.
  - destruct (advisory_tips_spec notes _ costly_notes_well_mapped)
      as (k & d & Ek & _ & Ed & Hd & _
          & (_ & G & O & _) & (_ & _ & _ & Q') & _).
    exists d. vm_compute in Ek. apply Ret_inj in Ek. subst k.
    split; [exact Ed|]. rewrite Hd. simpl in *.
    split; [reflexivity|]. split; [|split].
    + apply G. exists (0 # 1500). split; reflexivity.
    + apply O. exists (0 # 1500). split; reflexivity.
    + apply Q'; intros (x & E & _); discriminate E.
Defined.

(** * Further properties of the code *)

(** ** Scorers, traffic lights and the risk list *)

(** X1: for any thresholds, a higher value never scores lower with the
    ascending scorer and never scores higher with the descending one. *)
Theorem scorers_monotone (good warn v1 v2 : Q) (Hle : v1 <= v2) :
  (exists a b, score_by_threshold (Some v1) good warn = Some a /\
               score_by_threshold (Some v2) good warn = Some b /\
               (a <= b)%Z) /\
  (exists a b, score_by_inverse_threshold (Some v1) good warn = Some a /\
               score_by_inverse_threshold (Some v2) good warn = Some b /\
               (b <= a)%Z).
Proof.
  split.
  - destruct (score_by_threshold_cases v1 good warn)
      as [[L1 E1]|[[L1 [M1 E1]]|[L1 [M1 E1]]]];
    destruct (score_by_threshold_cases v2 good warn)
      as [[L2 E2]|[[L2 [M2 E2]]|[L2 [M2 E2]]]];
    rewrite E1, E2; try (do 2 eexists; repeat split; lia); exfalso; lra.
  - destruct (score_by_inverse_threshold_cases v1 good warn)
      as [[L1 E1]|[[L1 [M1 E1]]|[L1 [M1 E1]]]];
    destruct (score_by_inverse_threshold_cases v2 good warn)
      as [[L2 E2]|[[L2 [M2 E2]]|[L2 [M2 E2]]]];
    rewrite E1, E2; try (do 2 eexists; repeat split; lia); exfalso; lra.
Qed.

Lemma scorers_monotone_witness :
  exists a b, score_by_threshold (Some 0.04) 0.10 0.05 = Some a /\
              score_by_threshold (Some 0.07) 0.10 0.05 = Some b /\
              (a <= b)%Z.
Proof.
  assert (H : 0.04 <= 0.07) by discriminate.
  exact (proj1 (scorers_monotone 0.10 0.05 0.04 0.07 H)).
Defined.

(** X2: the middle score 70 can be reached only with the thresholds in
    their intended order: by the ascending scorer exactly when
    [warn < good], by the descending one exactly when [good < warn]. *)
Theorem middle_score_reachable (good warn : Q) :
  ((exists v, score_by_threshold (Some v) good warn = Some 70%Z)
   <-> warn < good) /\
  ((exists v, score_by_inverse_threshold (Some v) good warn = Some 70%Z)
   <-> good < warn).
Proof.
  split; split.
  - intros (v & H).
    destruct (score_by_threshold_cases v good warn)
      as [[_ E]|[[L [M _]]|[_ [_ E]]]];
      [rewrite E in H; discriminate | lra | rewrite E in H; discriminate].
  - intro H. exists warn.
    destruct (score_by_threshold_cases warn good warn)
      as [[L _]|[[_ [_ E]]|[_ [L _]]]]; [lra | exact E | lra].
  - intros (v & H).
    destruct (score_by_inverse_threshold_cases v good warn)
      as [[_ E]|[[L [M _]]|[_ [_ E]]]];
      [rewrite E in H; discriminate | lra | rewrite E in H; discriminate].
  - intro H. exists warn.
    destruct (score_by_inverse_threshold_cases warn good warn)
      as [[L _]|[[_ [_ E]]|[_ [L _]]]]; [lra | exact E | lra].
Qed.

Lemma middle_score_reachable_witness :
  (exists v, score_by_threshold (Some v) 0.25 0.15 = Some 70%Z) /\
  ~ (exists v, score_by_threshold (Some v) 0.15 0.25 = Some 70%Z).
Proof.
  split.
  - apply (middle_score_reachable 0.25 0.15). reflexivity.
  - intro H. apply (middle_score_reachable 0.15 0.25) in H. discriminate H.
Defined.

Lemma risk_rows_none (d : list (kpi * option Z)) :
  risk_rows d = [] <->
  forall k v, In (k, Some v) d -> (85 <= v)%Z.
Proof.
  induction d as [|[k [v|]] d IH]; simpl.
  - split; [intros _ k v [] | reflexivity].
  - unfold risk_row.
    destruct (v <? 60)%Z eqn:E60; [|destruct (v <? 85)%Z eqn:E85].
    + split; [discriminate|]. intro H.
      specialize (H k v (or_introl eq_refl)). lia.
    + split; [discriminate|]. intro H.
      specialize (H k v (or_introl eq_refl)). lia.
    + rewrite IH. split.
      * intros H k' v' [E|Hin]; [injection E as <- <-; lia | eauto].
      * intros H k' v' Hin. apply (H k' v'). now right.
  - rewrite IH. split.
    + intros H k' v' [E|Hin]; [discriminate E | eauto].
    + intros H k' v' Hin. apply (H k' v'). now right.
Qed.

Lemma risk_row_not_all_clear (k : kpi) (v : Z) (r : string) :
  risk_row k v = Some r -> r <> NO_RISK.
Proof.
  unfold risk_row, NO_RISK.
  destruct (v <? 60)%Z; [|destruct (v <? 85)%Z]; intro H;
    try discriminate H; injection H as <-; simpl; discriminate.
Qed.

Lemma scored_in_scores (s : Scores) (v : Z) :
  In v (scored s) <-> exists k, In (k, Some v) (scores s).
Proof.
  unfold scored. generalize (scores s). intro d.
  induction d as [|[k [x|]] d IH]; simpl.
  - split; [intros [] | intros (k & [])].
  - unfold item_value at 1. simpl. rewrite IH. split.
    + intros [<-|(k' & H)]; [exists k; now left | exists k'; now right].
    + intros (k' & [E|H]); [injection E as _ <-; now left | right; eauto].
  - rewrite IH. split.
    + intros (k' & H). exists k'. now right.
    + intros (k' & [E|H]); [discriminate E | eauto].
Qed.

(** X4: the risk list agrees with the traffic lights: a score gets no
    risk line exactly when its light is green, a risk line starts with
    the light of its score and the label of its KPI, and the summary
    shows the all-clear line exactly when every available score is at
    least 85. *)
Theorem risk_list_matches_lights (s : Scores) :
  (forall k v, risk_row k v = None <-> traffic_light (Some v) = "🟢") /\
  (forall k v r, risk_row k v = Some r ->
     exists rest,
       r = ("  - " ++ traffic_light (Some v) ++ " " ++ label k ++ rest)%string) /\
  (risk_section s = ["- 주요 리스크:"; NO_RISK]
   <-> forall v, In v (scored s) -> (85 <= v)%Z).
Proof.
  split; [|split].
  - intros k v. unfold risk_row, traffic_light.
    destruct (v <? 60)%Z eqn:E60; [|destruct (v <? 85)%Z eqn:E85].
    + assert (E : (85 <=? v)%Z = false) by lia.
      assert (E' : (60 <=? v)%Z = false) by lia. rewrite E, E'.
      split; discriminate.
    + assert (E : (85 <=? v)%Z = false) by lia.
      assert (E' : (60 <=? v)%Z = true) by lia. rewrite E, E'.
      split; discriminate.
    + assert (E : (85 <=? v)%Z = true) by lia. rewrite E.
      split; reflexivity.
  - intros k v r. unfold risk_row, traffic_light.
    destruct (v <? 60)%Z eqn:E60; [|destruct (v <? 85)%Z eqn:E85].
    + assert (E : (85 <=? v)%Z = false) by lia.
      assert (E' : (60 <=? v)%Z = false) by lia. rewrite E, E'.
      intro H. injection H as <-. eexists. reflexivity.
    + assert (E : (85 <=? v)%Z = false) by lia.
      assert (E' : (60 <=? v)%Z = true) by lia. rewrite E, E'.
      intro H. injection H as <-. eexists. reflexivity.
    + discriminate.
  - unfold risk_section.
    assert (Hiff : risk_rows (scores s) = [] <->
                   forall v, In v (scored s) -> (85 <= v)%Z).
    { rewrite risk_rows_none. split.
      - intros H v Hv. apply scored_in_scores in Hv. destruct Hv as (k & Hk).
        eauto.
      - intros H k v Hk. apply H. apply scored_in_scores. eauto. }
    destruct (risk_rows (scores s)) as [|r rs] eqn:E.
    + split; [intros _; now apply Hiff | reflexivity].
    + split.
      * intro H. injection H as -> ->. exfalso.
        assert (Hin : In NO_RISK (risk_rows (scores s)))
          by (rewrite E; now left).
        clear - Hin. revert Hin. generalize (scores s). intro d.
        induction d as [|[k [v|]] d IH]; simpl; auto.
        destruct (risk_row k v) as [r|] eqn:Er; auto.
        intros [->|H]; [now apply (risk_row_not_all_clear k v NO_RISK) | auto].
      * intro H. apply Hiff in H. discriminate H.
Qed.

Lemma risk_list_matches_lights_witness :
  risk_section (mkScores (Some 100%Z) None None None (Some 100%Z) None)
  = ["- 주요 리스크:"; NO_RISK].
Proof.
  apply (risk_list_matches_lights
           (mkScores (Some 100%Z) None None None (Some 100%Z) None)).
  intros v Hv. cbv in Hv. destruct Hv as [<- | [<- | []]]; discriminate.
Defined.

(** ** Sums and means over a column *)

Lemma getitem_missing (df : DataFrame) (col : string) :
  ~ In col (columns df) -> getitem df col = Raise (KeyError col).
Proof.
  intro H. unfold getitem.
  destruct (existsb (String.eqb col) (columns df)) eqn:E; [|reflexivity].
  apply existsb_exists in E. destruct E as (x & Hx & Ex).
  apply String.eqb_eq in Ex. subst x. contradiction.
Qed.

Lemma getitem_ret (df : DataFrame) (col : string) (s : list cell) :
  getitem df col = Ret s ->
  In col (columns df) /\ s = map (fun r => r col) (rows df).
Proof.
  unfold getitem.
  destruct (existsb (String.eqb col) (columns df)) eqn:E; [|discriminate].
  intro H. apply Ret_inj in H. split; [|now symmetry].
  apply existsb_exists in E. destruct E as (x & Hx & Ex).
  apply String.eqb_eq in Ex. now subst x.
Qed.

(** X5: the two column helpers answer "unavailable" for the sentinel
    whatever the table holds, raise [KeyError] for any other label that
    is not a column, and return otherwise; the sum of an existing column
    is always a number. *)
Theorem column_helpers_errors (df : DataFrame) (col : string) :
  (col = UNSET -> safe_sum df col = Ret None /\ safe_mean df col = Ret None) /\
  (col <> UNSET -> ~ In col (columns df) ->
   safe_sum df col = Raise (KeyError col) /\
   safe_mean df col = Raise (KeyError col)) /\
  (col <> UNSET -> In col (columns df) ->
   (exists s, safe_sum df col = Ret (Some s)) /\
   (exists m, safe_mean df col = Ret m)).
Proof.
  split; [|split].
  - intros ->. split; reflexivity.
  - intros Hn Hm. apply is_unset_false in Hn. unfold safe_sum, safe_mean.
    rewrite Hn, (getitem_missing df col Hm). split; reflexivity.
  - intros Hn Hin. split.
    + eexists. now apply safe_sum_mapped.
    + apply is_unset_false in Hn. unfold safe_mean.
      rewrite Hn, (getitem_in df col Hin). simpl. eauto.
Qed.

Lemma column_helpers_errors_witness :
  safe_sum notes "price" = Raise (KeyError "price") /\
  safe_mean notes "price" = Raise (KeyError "price").
Proof.
  apply (column_helpers_errors notes "price").
  - discriminate.
  - simpl. intros [H|[H|[]]]; discriminate H.
Defined.

Lemma length_pos_Q {A : Type} (x : A) (l : list A) :
  0 < inject_Z (Z.of_nat (List.length (x :: l))).
Proof.
  change 0 with (inject_Z 0). rewrite <- Zlt_Qlt. simpl List.length. lia.
Qed.

(** ** On-time rate and inventory value *)

(** X8: an available on-time rate is a fraction between 0 and 1. *)
Theorem on_time_rate_range (df : DataFrame) (c_due c_ship : string) (q : Q)
  (Hq : on_time_rate df c_due c_ship = Ret (Some q)) :
  0 <= q <= 1.
Proof.
  assert (Hm : c_due <> UNSET /\ c_ship <> UNSET /\
               In c_due (columns df) /\ In c_ship (columns df)).
  { unfold on_time_rate in Hq.
    destruct (is_unset c_due) eqn:Ed; [discriminate|].
    destruct (is_unset c_ship) eqn:Es; [discriminate|]. simpl in Hq.
    apply is_unset_false in Ed, Es.
    destruct (getitem df c_due) as [d|] eqn:Gd; [|discriminate].
    destruct (getitem df c_ship) as [s|] eqn:Gs; [|discriminate].
    apply getitem_ret in Gd, Gs. tauto. }
  destruct Hm as (Nd & Ns & Id & Is).
  rewrite (on_time_rate_mapped df c_due c_ship Nd Ns Id Is) in Hq.
  unfold on_time_fraction in Hq.
  destruct (dated_rows df c_due c_ship) as [|r l]; [discriminate|].
  apply Ret_inj in Hq. injection Hq as <-.
  pose proof (length_pos_Q r l) as Hp.
  pose proof (filter_length_le (shipped_on_time c_due c_ship) (r :: l)) as Hle.
  split.
  - apply Qle_shift_div_l; [exact Hp|]. rewrite Qmult_0_l.
    pose proof (Nat2Z.is_nonneg
                  (List.length (filter (shipped_on_time c_due c_ship) (r :: l))))
      as Hn.
    rewrite Zle_Qle in Hn. exact Hn.
  - apply Qle_shift_div_r; [exact Hp|]. rewrite Qmult_1_l.
    apply Nat2Z.inj_le in Hle. rewrite Zle_Qle in Hle. exact Hle.
Qed.

Lemma on_time_rate_range_witness :
  exists q, on_time_rate orders "due" "ship" = Ret (Some q) /\ 0 <= q <= 1.
Proof.
  eexists. split; [reflexivity|].
  apply (on_time_rate_range orders "due" "ship"). reflexivity.
Defined.

Lemma fillna_zero_map (c : string) (l : list (string -> cell)) :
  fillna 0 (to_num (map (fun r => r c) l))
  = map (fun r => or_zero (as_number (r c))) l.
Proof.
  unfold fillna, to_num. rewrite !map_map. reflexivity.
Qed.

Lemma series_sum_filter {A : Type} (g : A -> Q) (p : A -> bool) (l : list A) :
  (forall x, p x = false -> g x == 0) ->
  series_sum (map g l) == series_sum (map g (filter p l)).
Proof.
  intro H. induction l as [|x l IH]; simpl; [reflexivity|].
  destruct (p x) eqn:E; simpl; rewrite IH; [reflexivity|].
  rewrite (H x E). ring.
Qed.

(** X9: with both columns mapped the inventory value is always a number:
    the sum of quantity times unit cost over the rows in which both cells
    parse; a row with an unparseable cell adds nothing. *)
Theorem inventory_value_rowwise (df : DataFrame) (c_inv c_cost : string)
  (Hi : c_inv <> UNSET) (Hc : c_cost <> UNSET)
  (Ii : In c_inv (columns df)) (Ic : In c_cost (columns df)) :
  exists v, inventory_value df c_inv c_cost = Ret (Some v) /\
    v == series_sum
           (map (fun r => or_zero (as_number (r c_inv))
                          * or_zero (as_number (r c_cost)))
                (filter (both_numbers c_inv c_cost) (rows df))).
Proof.
  unfold inventory_value. apply is_unset_false in Hi, Hc. rewrite Hi, Hc.
  simpl. rewrite !getitem_in by assumption. simpl.
  eexists. split; [reflexivity|].
  rewrite !fillna_zero_map.
  rewrite (map2_map Qmult (fun r => or_zero (as_number (r c_inv)))
                    (fun r => or_zero (as_number (r c_cost)))).
  apply series_sum_filter. intros r. unfold both_numbers.
  destruct (as_number (r c_inv)), (as_number (r c_cost)); simpl;
    try discriminate; intros _; ring.
Qed.

Lemma inventory_value_rowwise_witness :
  exists v, inventory_value notes "qty" "memo" = Ret (Some v) /\ v == 0.
Proof.
  destruct (inventory_value_rowwise notes "qty" "memo") as (v & Hv & Hq).
  - discriminate.
  - discriminate.
  - simpl. auto.
  - simpl. auto.
  - exists v. split; [exact Hv|]. rewrite Hq. reflexivity.
Defined.

(** ** Margins and the composite score *)

(** X10: on a table with positive sales and non-negative fixed and labour
    costs, the operating margin never exceeds the gross margin. *)
Theorem operating_margin_below_gross (df : DataFrame) (m : Mapping)
  (Hmap : well_mapped df m) :
  exists k, compute_kpis df m = Ret k /\
    forall s g o,
      sales k = Some s -> 0 < s ->
      0 <= or_zero (fixed k) -> 0 <= or_zero (labor k) ->
      gross_margin k = Some g -> op_margin k = Some o ->
      o <= g.
Proof.
  destruct (compute_kpis_returns df m Hmap)
    as (k & Ek & _ & _ & _ & _ & Eg & Eo).
  exists k. split; [exact Ek|].
  intros s g o Hs Hpos Hf Hl Hg Ho.
  rewrite Hs, Hg in Eg. rewrite Hs, Ho in Eo.
  assert (Hnz : Qeq_bool s 0 = false).
  { apply Qeq_bool_false. intro Hz. rewrite Hz in Hpos. discriminate Hpos. }
  destruct (cogs k) as [c|]; [|discriminate Eg].
  simpl in Eg, Eo. unfold truediv in Eg, Eo. rewrite Hnz in Eg, Eo.
  simpl in Eg, Eo. apply Ret_inj in Eg, Eo.
  injection Eg as <-. injection Eo as <-.
  rewrite !minus_if_set_or_zero. simpl or_zero at 1.
  apply Qle_shift_div_r; [exact Hpos|].
  assert (E : (s - c) / s * s == s - c).
  { field. intro Hz. rewrite Hz in Hpos. discriminate Hpos. }
  rewrite E. lra.
Qed.

Lemma operating_margin_below_gross_witness :
  well_mapped notes (mkMapping "qty" "qty" UNSET UNSET UNSET UNSET UNSET
                               UNSET UNSET UNSET UNSET) /\
  exists k, compute_kpis notes
              (mkMapping "qty" "qty" UNSET UNSET UNSET UNSET UNSET
                         UNSET UNSET UNSET UNSET) = Ret k /\
            gross_margin k = Some (0 / 1500) /\
            op_margin k = Some (0 / 1500).
Proof.
  assert (W : well_mapped notes
                (mkMapping "qty" "qty" UNSET UNSET UNSET UNSET UNSET
                           UNSET UNSET UNSET UNSET)).
  { unfold well_mapped, selectable; simpl. repeat split; auto. }
  split; [exact W|].
  destruct (operating_margin_below_gross notes _ W) as (k & Ek & _).
  exists k. split; [exact Ek|].
  vm_compute in Ek. apply Ret_inj in Ek. subst k. split; reflexivity.
Defined.



(** X12: the six weights add up to 1, so when every KPI is scored the
    composite is the plain weighted sum of the six scores. *)
Theorem composite_all_scored (a b c d e f : Z) :
  exists t,
    total_score (mkScores (Some a) (Some b) (Some c) (Some d) (Some e) (Some f))
    = Ret (Some t) /\
    t == 0.22 * inject_Z a + 0.22 * inject_Z b + 0.18 * inject_Z c
         + 0.18 * inject_Z d + 0.12 * inject_Z e + 0.08 * inject_Z f.
Proof.
  pose proof (total_of_weighted_items
                (scores (mkScores (Some a) (Some b) (Some c)
                                  (Some d) (Some e) (Some f)))) as H.
  simpl weighted_items in H. eexists. split; [exact H|].
  rewrite !py_sum_series_sum. simpl. unfold item_product, item_value.
  simpl. field.
Qed.

Lemma improves_sums (d d' : list (kpi * option Z)) :
  Forall2 (fun e e' => fst e = fst e' /\ improves (snd e) (snd e')) d d' ->
  series_sum (map counted_weight d) == series_sum (map counted_weight d') /\
  series_sum (map contribution d) <= series_sum (map contribution d').
Proof.
  induction 1 as [|[k v] [k' v'] d d' [Hk Hv] _ [IHw IHc]]; simpl.
  - split; [reflexivity | apply Qle_refl].
  - simpl in Hk, Hv. subst k'.
    unfold counted_weight at 1 3, contribution at 1 3. simpl.
    destruct v as [x|], v' as [y|]; simpl in Hv; try contradiction.
    + split; [now rewrite IHw|].
      assert (inject_Z x * weights k <= inject_Z y * weights k).
      { apply Qmult_le_compat_r; [now rewrite <- Zle_Qle|].
        apply Qlt_le_weak, weights_pos. }
      lra.
    + split; [now rewrite IHw | lra].
Qed.

(** X13: raising scores while the same KPIs stay scored never lowers the
    composite. *)
Theorem composite_monotone (s s' : Scores) (t t' : Q)
  (Himp : scores_improve s s')
  (Ht : total_score s = Ret (Some t))
  (Ht' : total_score s' = Ret (Some t')) :
  t <= t'.
Proof.
  assert (HF : Forall2 (fun e e' => fst e = fst e'
                                    /\ improves (snd e) (snd e'))
                       (scores s) (scores s')).
  { destruct Himp as (H1 & H2 & H3 & H4 & H5 & H6).
    unfold scores. repeat constructor; assumption. }
  destruct (improves_sums _ _ HF) as [Hw Hc].
  unfold total_score in Ht, Ht'.
  pose proof (total_of_weighted_items (scores s)) as E.
  pose proof (total_of_weighted_items (scores s')) as E'.
  pose proof (weighted_items_weight (scores s)) as W.
  pose proof (weighted_items_weight (scores s')) as W'.
  pose proof (weighted_items_products (scores s)) as P.
  pose proof (weighted_items_products (scores s')) as P'.
  pose proof (weighted_items_weights (scores s)) as D.
  pose proof (weighted_items_weights (scores s')) as D'.
  destruct (weighted_items (scores s)) as [|i l]; [discriminate|].
  destruct (weighted_items (scores s')) as [|i' l']; [discriminate|].
  rewrite E in Ht. rewrite E' in Ht'.
  apply Ret_inj in Ht, Ht'. injection Ht as <-. injection Ht' as <-.
  pose proof (weight_sum_pos i l W) as Hpos.
  pose proof (weight_sum_pos i' l' W') as Hpos'.
  rewrite !py_sum_series_sum.
  apply Qle_shift_div_r; [exact Hpos|].
  assert (Eq : series_sum (map item_product (i' :: l'))
               / series_sum (map item_weight (i' :: l'))
               * series_sum (map item_weight (i :: l))
               == series_sum (map item_product (i' :: l'))).
  { rewrite D, Hw, <- D'. field. intro Hz. rewrite Hz in Hpos'.
    discriminate Hpos'. }
  rewrite Eq, P, P'. exact Hc.
Qed.

Lemma composite_monotone_witness :
  exists t t',
    total_score (mkScores (Some 40%Z) None (Some 70%Z) None None None)
    = Ret (Some t) /\
    total_score (mkScores (Some 70%Z) None (Some 70%Z) None None None)
    = Ret (Some t') /\
    t <= t'.
Proof.
  eexists. eexists. split; [reflexivity|]. split; [reflexivity|].
  apply (composite_monotone
           (mkScores (Some 40%Z) None (Some 70%Z) None None None)
           (mkScores (Some 70%Z) None (Some 70%Z) None None None)).
  - unfold scores_improve; simpl. repeat split; lia.
  - reflexivity.
  - reflexivity.
Defined.

(** ** Tips and scores *)

Lemma tips_membership (r1 r2 : bool) (t1 t2 fallback : string) :
  t1 <> t2 -> t1 <> fallback -> t2 <> fallback ->
  (In t1 (tips r1 t1 r2 t2 fallback) <-> r1 = true) /\
  (In t2 (tips r1 t1 r2 t2 fallback) <-> r2 = true) /\
  (In fallback (tips r1 t1 r2 t2 fallback) <-> r1 = false /\ r2 = false).
Proof.
  intros H12 H1f H2f. rewrite tips_cases.
  destruct r1, r2; simpl; repeat split; intros; auto;
    repeat match goal with
           | H : _ \/ _ |- _ => destruct H
           | H : _ /\ _ |- _ => destruct H
           | H : False |- _ => destruct H
           end; try discriminate; try congruence.
Qed.

Ltac distinct_strings :=
  let H := fresh in
  intro H; apply String.eqb_eq in H; vm_compute in H; discriminate H.

(** ** Grouped breakdowns *)

Lemma ascii_compare_refl (a : Ascii.ascii) : Ascii.compare a a = Eq.
Proof. unfold Ascii.compare. apply N.compare_refl. Qed.

Lemma ascii_compare_lt_trans (a b c : Ascii.ascii) :
  Ascii.compare a b = Lt -> Ascii.compare b c = Lt -> Ascii.compare a c = Lt.
Proof.
  unfold Ascii.compare. rewrite !N.compare_lt_iff. apply N.lt_trans.
Qed.

Lemma string_compare_refl (s : string) : String.compare s s = Eq.
Proof.
  induction s as [|a s IH]; simpl; [reflexivity|].
  now rewrite ascii_compare_refl.
Qed.

Lemma string_compare_lt_trans (s1 s2 s3 : string) :
  String.compare s1 s2 = Lt -> String.compare s2 s3 = Lt ->
  String.compare s1 s3 = Lt.
Proof.
  revert s2 s3. induction s1 as [|a s1 IH]; intros [|b s2] [|c s3]; simpl;
    try discriminate; try reflexivity.
  destruct (Ascii.compare a b) eqn:Eab; try discriminate;
    destruct (Ascii.compare b c) eqn:Ebc; try discriminate.
  - apply Ascii.compare_eq_iff in Eab, Ebc. subst.
    rewrite ascii_compare_refl. apply IH.
  - apply Ascii.compare_eq_iff in Eab. subst. now rewrite Ebc.
  - apply Ascii.compare_eq_iff in Ebc. subst. now rewrite Eab.
  - now rewrite (ascii_compare_lt_trans a b c Eab Ebc).
Qed.

Lemma insert_key_in (k g : string) (ks : list string) :
  In g (insert_key k ks) <-> g = k \/ In g ks.
Proof.
  induction ks as [|x r IH]; simpl.
  - split; [intros [<-|[]]; now left | intros [->|[]]; now left].
  - destruct (String.compare k x) eqn:E; simpl.
    + apply String.compare_eq_iff in E. subst x.
      split; [intro H; now right | intros [->|H]; [now left | exact H]].
    + split; [intros [<-|H]; auto | intros [->|H]; auto].
    + rewrite IH. split.
      * intros [<-|[->|H]]; auto.
      * intros [->|[<-|H]]; auto.
Qed.

Lemma group_keys_in (g : string) (keys : list (option string)) :
  In g (group_keys keys) <-> In (Some g) keys.
Proof.
  induction keys as [|[k|] keys IH]; simpl.
  - tauto.
  - rewrite insert_key_in, IH. split.
    + intros [->|H]; auto.
    + intros [E|H]; [injection E as ->; now left | now right].
  - rewrite IH. split; [now right | intros [E|H]; [discriminate E | exact H]].
Qed.

Lemma insert_key_increasing (k : string) (ks : list string) :
  increasing ks -> increasing (insert_key k ks).
Proof.
  induction ks as [|x r IH]; intro H.
  - simpl. auto.
  - simpl insert_key. destruct (String.compare k x) eqn:E.
    + exact H.
    + simpl. split; [exact E | exact H].
    + assert (Hxk : String.compare x k = Lt).
      { rewrite String.compare_antisym, E. reflexivity. }
      destruct H as [Hh Ht]. specialize (IH Ht).
      split; [|exact IH].
      destruct r as [|y r']; simpl; [exact Hxk|].
      destruct (String.compare k y); [exact Hh | exact Hxk | exact Hh].
Qed.

Lemma group_keys_increasing (keys : list (option string)) :
  increasing (group_keys keys).
Proof.
  induction keys as [|[k|] keys IH]; simpl; auto.
  now apply insert_key_increasing.
Qed.

Lemma increasing_head_lt (x : string) (r : list string) :
  increasing (x :: r) -> forall y, In y r -> String.compare x y = Lt.
Proof.
  revert x. induction r as [|z r IH]; intros x [Hh Ht] y Hy; [destruct Hy|].
  destruct Hy as [<-|Hy]; [exact Hh|].
  apply (string_compare_lt_trans x z y Hh). now apply IH.
Qed.

Lemma increasing_NoDup (l : list string) : increasing l -> NoDup l.
Proof.
  induction l as [|x r IH]; intro H; constructor.
  - intro Hin. pose proof (increasing_head_lt x r H x Hin) as E.
    rewrite string_compare_refl in E. discriminate E.
  - apply IH. now destruct H.
Qed.

Lemma breakdown_by_item_mapped (df : DataFrame) (m : Mapping) (c : string) :
  c <> UNSET -> col_prod_qty m <> UNSET -> col_defect_qty m <> UNSET ->
  In c (columns df) -> In (col_prod_qty m) (columns df) ->
  In (col_defect_qty m) (columns df) ->
  breakdown_by_item df m c
  = Ret (Some (ratio_by_group (map (fun r => r c) (rows df))
                              (map (fun r => r (col_defect_qty m)) (rows df))
                              (map (fun r => r (col_prod_qty m)) (rows df)))).
Proof.
  intros N1 N2 N3 I1 I2 I3. unfold breakdown_by_item.
  apply is_unset_false in N1, N2, N3. rewrite N1, N2, N3. simpl.
  now rewrite !getitem_in by assumption.
Qed.

Lemma breakdown_by_line_mapped (df : DataFrame) (m : Mapping) (c : string) :
  c <> UNSET -> col_good_qty m <> UNSET -> col_prod_qty m <> UNSET ->
  In c (columns df) -> In (col_good_qty m) (columns df) ->
  In (col_prod_qty m) (columns df) ->
  breakdown_by_line df m c
  = Ret (Some (ratio_by_group (map (fun r => r c) (rows df))
                              (map (fun r => r (col_good_qty m)) (rows df))
                              (map (fun r => r (col_prod_qty m)) (rows df)))).
Proof.
  intros N1 N2 N3 I1 I2 I3. unfold breakdown_by_line.
  apply is_unset_false in N1, N2, N3. rewrite N1, N2, N3. simpl.
  now rewrite !getitem_in by assumption.
Qed.

Lemma ratio_by_group_keys (key num den : list cell) :
  map group_key (ratio_by_group key num den) = group_keys (map as_key key).
Proof.
  unfold ratio_by_group. rewrite map_map. simpl. apply map_id.
Qed.

(** X15: the breakdown by item has exactly one row for each distinct item
    key present in the table, no key twice; rows of the table without a
    key belong to no group.  (The order of the rows is left open.) *)
Theorem breakdown_by_item_groups (df : DataFrame) (m : Mapping) (c : string)
  (N1 : c <> UNSET) (N2 : col_prod_qty m <> UNSET)
  (N3 : col_defect_qty m <> UNSET)
  (I1 : In c (columns df)) (I2 : In (col_prod_qty m) (columns df))
  (I3 : In (col_defect_qty m) (columns df)) :
  exists b, breakdown_by_item df m c = Ret (Some b) /\
    NoDup (map group_key b) /\
    (forall g, In g (map group_key b)
               <-> exists r, In r (rows df) /\ as_key (r c) = Some g).
Proof.
  eexists. split; [now apply breakdown_by_item_mapped|].
  rewrite ratio_by_group_keys.
  split; [apply increasing_NoDup, group_keys_increasing|].
  intro g. rewrite group_keys_in, map_map, in_map_iff. split.
  - intros (r & E & H). exists r. now split.
  - intros (r & H & E). exists r. now split.
Qed.

Lemma breakdown_by_item_groups_witness :
  exists b, breakdown_by_item idle_item idle_mapping "item" = Ret (Some b) /\
            map group_key b = ["A"].
Proof.
  destruct (breakdown_by_item_groups idle_item idle_mapping "item")
    as (b & Eb & _); try discriminate; try (simpl; tauto).
  exists b. split; [exact Eb|].
  vm_compute in Eb. apply Ret_inj in Eb. injection Eb as <-. reflexivity.
Defined.

(** ** Row-level charts *)

Lemma dropna_rows_in (c1 c2 : string) (l : list (string -> cell)) (p d : Q) :
  In (p, d) (dropna_rows (to_num (map (fun r => r c1) l))
                         (to_num (map (fun r => r c2) l))) ->
  exists r, In r l /\ as_number (r c1) = Some p /\ as_number (r c2) = Some d.
Proof.
  induction l as [|r l IH]; simpl; [intros []|].
  destruct (as_number (r c1)) as [x|] eqn:E1;
    destruct (as_number (r c2)) as [y|] eqn:E2; simpl; intro H.
  - destruct H as [E|H].
    + injection E as <- <-. exists r. auto.
    + destruct (IH H) as (r' & Hr & Hp). exists r'. auto.
  - destruct (IH H) as (r' & Hr & Hp). exists r'. auto.
  - destruct (IH H) as (r' & Hr & Hp). exists r'. auto.
  - destruct (IH H) as (r' & Hr & Hp). exists r'. auto.
Qed.

(** X18: every value of the per-row defect-rate chart is the element-wise
    quotient defect / produced of a table row in which both cells parse
    and the produced quantity is positive; a row with zero or negative
    production, or with an unparseable cell, yields no value, so a zero
    denominator never reaches this chart. *)
Theorem row_defect_rates_guarded (df : DataFrame) (c_prod c_defect : string)
  (l : list float64)
  (Hl : row_defect_rates df c_prod c_defect = Ret (Some l)) :
  forall x, In x l ->
    exists r p d, In r (rows df) /\
                  as_number (r c_prod) = Some p /\
                  as_number (r c_defect) = Some d /\
                  0 < p /\ x = np_truediv d p.
Proof.
  intros x Hx. unfold row_defect_rates in Hl.
  destruct (negb (is_unset c_prod) && negb (is_unset c_defect));
    [|discriminate].
  destruct (getitem df c_prod) as [p|] eqn:Gp; [|discriminate].
  destruct (getitem df c_defect) as [d|] eqn:Gd; [|discriminate].
  apply getitem_ret in Gp, Gd. destruct Gp as [_ ->], Gd as [_ ->].
  simpl in Hl.
  destruct (dropna_rows _ _) as [|pd0 rest] eqn:E; [discriminate|].
  apply Ret_inj in Hl. injection Hl as <-.
  change (In x (filter (fun y => negb (is_nan y))
                       (map (fun pd => np_where (Qlt_bool 0 (fst pd))
                                                (np_truediv (snd pd) (fst pd))
                                                NaN)
                            (pd0 :: rest)))) in Hx.
  apply filter_In in Hx. destruct Hx as [Hin Hnan].
  apply in_map_iff in Hin. destruct Hin as ([p d] & Hx & Hpd).
  rewrite <- E in Hpd. apply dropna_rows_in in Hpd.
  destruct Hpd as (r & Hr & Ep & Ed).
  exists r, p, d. simpl in Hx.
  destruct (Qlt_bool 0 p) eqn:Hp; simpl in Hx;
    [|subst x; discriminate Hnan].
  apply Qlt_bool_iff in Hp. auto 6.
Qed.

Lemma row_defect_rates_guarded_witness :
  exists r p d, In r (rows notes) /\
                as_number (r "qty") = Some p /\
                as_number (r "qty") = Some d /\
                0 < p /\ Finite (1000 / 1000) = np_truediv d p.
Proof.
  apply (row_defect_rates_guarded notes "qty" "qty"
           [Finite (1000 / 1000); Finite (500 / 500)]).
  - reflexivity.
  - now left.
Defined.

Lemma Forall2_map_right {A B : Type} (R : A -> B -> Prop) (h : A -> B)
  (l : list A) :
  (forall x, In x l -> R x (h x)) -> Forall2 R l (map h l).
Proof.
  induction l as [|x l IH]; intro H; simpl; constructor.
  - apply H. now left.
  - apply IH. intros y Hy. apply H. now right.
Qed.

Lemma delay_days_mapped (df : DataFrame) (c_due c_ship : string) :
  c_due <> UNSET -> c_ship <> UNSET ->
  In c_due (columns df) -> In c_ship (columns df) ->
  delay_days df c_due c_ship
  = Ret (match dated_rows df c_due c_ship with
         | [] => None
         | _ :: _ =>
             Some (map (fun r => dt_days (date_sub (as_date (r c_ship))
                                                   (as_date (r c_due))))
                       (dated_rows df c_due c_ship))
         end).
Proof.
  intros Hd Hs Id Is. unfold delay_days.
  apply is_unset_false in Hd, Hs. rewrite Hd, Hs. simpl.
  rewrite !getitem_in by assumption. simpl.
  unfold to_datetime. rewrite !map_map.
  rewrite (map2_map (fun x y => notna x && notna y)
                    (fun r => as_date (r c_due)) (fun r => as_date (r c_ship))).
  change (fun x : string -> cell =>
            notna (as_date (x c_due)) && notna (as_date (x c_ship)))
    with (both_parse c_due c_ship).
  rewrite existsb_map_filter, !mask_map_filter.
  fold (dated_rows df c_due c_ship).
  destruct (dated_rows df c_due c_ship) as [|r l] eqn:E; [reflexivity|].
  rewrite (map2_map date_sub), map_map. reflexivity.
Qed.

(** X19: the lateness chart has one whole-day value for each row counted
    by the on-time rate, and agrees with it in sign: a row shipped on time
    has a lateness of at most 0 days, a row with a positive lateness is
    late, and a row with a negative lateness is on time. *)
Theorem delay_days_agree (df : DataFrame) (c_due c_ship : string)
  (l : list (option Z))
  (Hl : delay_days df c_due c_ship = Ret (Some l)) :
  on_time_rate df c_due c_ship
  = Ret (Some (on_time_fraction df c_due c_ship)) /\
  Forall2 (fun r x =>
             exists dd, x = Some dd /\
               (shipped_on_time c_due c_ship r = true -> (dd <= 0)%Z) /\
               ((0 < dd)%Z -> shipped_on_time c_due c_ship r = false) /\
               ((dd < 0)%Z -> shipped_on_time c_due c_ship r = true))
          (dated_rows df c_due c_ship) l.
Proof.
  assert (Hm : c_due <> UNSET /\ c_ship <> UNSET /\
               In c_due (columns df) /\ In c_ship (columns df)).
  { unfold delay_days in Hl.
    destruct (is_unset c_due) eqn:Ed; [discriminate|].
    destruct (is_unset c_ship) eqn:Es; [discriminate|]. simpl in Hl.
    apply is_unset_false in Ed, Es.
    destruct (getitem df c_due) as [d|] eqn:Gd; [|discriminate].
    destruct (getitem df c_ship) as [s|] eqn:Gs; [|discriminate].
    apply getitem_ret in Gd, Gs. tauto. }
  destruct Hm as (Nd & Ns & Id & Is).
  rewrite (delay_days_mapped df c_due c_ship Nd Ns Id Is) in Hl.
  rewrite (on_time_rate_mapped df c_due c_ship Nd Ns Id Is).
  pose proof (fun r => proj1 (filter_In (both_parse c_due c_ship) r (rows df)))
    as Hdated.
  fold (dated_rows df c_due c_ship) in Hdated.
  destruct (dated_rows df c_due c_ship) as [|r0 l0]; [discriminate|].
  apply Ret_inj in Hl. injection Hl as <-.
  split; [reflexivity|].
  apply (Forall2_map_right _
           (fun r => dt_days (date_sub (as_date (r c_ship))
                                       (as_date (r c_due))))
           (r0 :: l0)).
  intros r Hr. destruct (Hdated r Hr) as [_ Hb]. unfold both_parse in Hb.
  unfold shipped_on_time, date_le.
  destruct (as_date (r c_due)) as [d|]; [|discriminate Hb].
  destruct (as_date (r c_ship)) as [s|]; [|discriminate Hb]. simpl.
  eexists. split; [reflexivity|].
  assert (Hpos : (0 < NS_PER_DAY)%Z) by reflexivity.
  split; [|split].
  - intro H. apply Z.leb_le in H.
    apply Z.le_trans with (0 / NS_PER_DAY)%Z; [|reflexivity].
    apply Z.div_le_mono; lia.
  - intro H. apply Z.leb_gt.
    destruct (Z_lt_le_dec d s) as [Hlt | Hle]; [exact Hlt|]. exfalso.
    assert ((s - d) / NS_PER_DAY <= 0 / NS_PER_DAY)%Z
      by (apply Z.div_le_mono; lia).
    change (0 / NS_PER_DAY)%Z with 0%Z in *. lia.
  - intro H. apply Z.leb_le.
    destruct (Z_lt_le_dec d s) as [Hlt | Hle]; [|exact Hle]. exfalso.
    assert (0 <= (s - d) / NS_PER_DAY)%Z by (apply Z.div_pos; lia). lia.
Qed.

Lemma delay_days_agree_witness :
  delay_days orders "due" "ship" = Ret (Some [Some (-1)%Z; Some 5%Z]) /\
  on_time_rate orders "due" "ship"
  = Ret (Some (on_time_fraction orders "due" "ship")).
Proof.
  split; [reflexivity|].
  apply (delay_days_agree orders "due" "ship" [Some (-1)%Z; Some 5%Z]).
  reflexivity.
Defined.

(** * Properties in binary64 *)

(** ** Ratios *)

(** C4 as the code has it: [safe_ratio] answers "unavailable" when an
    operand is unavailable or the denominator is zero of either sign (so
    also for a zero numerator), and the binary64 quotient otherwise; it
    raises nothing.  A zero denominator therefore never yields an
    infinity; the quotient of two finite operands still can, by
    overflow. *)
Theorem safe_ratio_f64_spec (n d : option float) :
  (n = None -> safe_ratio_f64 n d = Ret None) /\
  (d = None -> safe_ratio_f64 n d = Ret None) /\
  (forall d', d = Some d' -> (d' =? 0)%float = true ->
              safe_ratio_f64 n d = Ret None) /\
  (forall n', safe_ratio_f64 (Some n') (Some 0%float) = Ret None /\
              safe_ratio_f64 (Some n') (Some (-0)%float) = Ret None) /\
  (forall n' d', n = Some n' -> d = Some d' -> (d' =? 0)%float = false ->
                 safe_ratio_f64 n d = Ret (Some (n' / d')%float)) /\
  (exists r, safe_ratio_f64 n d = Ret r).
Proof.
  split; [|split; [|split; [|split; [|split]]]].
  - intros ->. reflexivity.
  - intros ->. destruct n; reflexivity.
  - intros d' -> Hz. destruct n; simpl; [now rewrite Hz | reflexivity].
  - intros n'. split; reflexivity.
  - intros n' d' -> -> Hnz. simpl. unfold truediv_f64. now rewrite Hnz.
  - destruct n as [n'|], d as [d'|]; simpl; eauto.
    unfold truediv_f64. destruct (d' =? 0)%float; simpl; eauto.
Qed.

Lemma safe_ratio_f64_witness :
  safe_ratio_f64 (Some 12%float) (Some 1000%float)
  = Ret (Some (12 / 1000)%float) /\
  safe_ratio_f64 (Some 0%float) (Some 0%float) = Ret None /\
  safe_ratio_f64 None (Some 1000%float) = Ret None.
Proof.
  destruct (safe_ratio_f64_spec (Some 12%float) (Some 1000%float))
    as (_ & _ & _ & Z0 & D & _).
  destruct (safe_ratio_f64_spec None (Some 1000%float)) as (N & _).
  split; [|split].
  - apply D; reflexivity.
  - apply Z0.
  - apply N. reflexivity.
Defined.

(** C4 as stated fails: both operands are finite and the denominator is
    not zero, yet the quotient is an infinity. *)
Lemma safe_ratio_overflows :
  (abs 1e308 <? infinity)%float = true /\
  (abs 1e-308 <? infinity)%float = true /\
  (1e-308 =? 0)%float = false /\
  safe_ratio_f64 (Some 1e308%float) (Some 1e-308%float) = Ret (Some infinity).
Proof.
  repeat split; vm_compute; reflexivity.
Qed.

(** ** The composite score *)

Lemma in_all_score_sets (s : Scores) :
  scorer_scores s -> In s all_score_sets.
Proof.
  destruct s as [a b c d e f]. unfold scorer_scores.
  cbn [s_gm s_om s_def s_yield s_otd s_inv].
  intros (Ha & Hb & Hc & Hd & He & Hf). unfold all_score_sets.
  apply in_flat_map. exists a. split; [exact Ha|].
  apply in_flat_map. exists b. split; [exact Hb|].
  apply in_flat_map. exists c. split; [exact Hc|].
  apply in_flat_map. exists d. split; [exact Hd|].
  apply in_flat_map. exists e. split; [exact He|].
  apply in_map. exact Hf.
Qed.

(** Checked on each of the 4096 records, for both sums. *)
Lemma near_extremes_all :
  forallb (fun s => near_extremes plain_sum s
                    && near_extremes compensated_sum s) all_score_sets = true.
Proof. vm_compute. reflexivity. Qed.

Lemma near_extremes_scorer (sum : list float -> float) (s : Scores) (c : float) :
  scorer_scores s -> py_sums sum ->
  total_score_f64 sum s = Ret (Some c) ->
  within_ulp (min_scored s) (max_scored s) c = true /\
  within_ulp 40 100 c = true.
Proof.
  intros Hs Hsum Hc.
  pose proof (proj1 (forallb_forall _ _) near_extremes_all s
                    (in_all_score_sets s Hs)) as H.
  apply andb_true_iff in H. destruct H as [Hp Hn].
  assert (Hne : near_extremes sum s = true)
    by (destruct Hsum as [-> | ->]; assumption).
  unfold near_extremes in Hne. rewrite Hc in Hne.
  now apply andb_true_iff in Hne.
Qed.

Lemma score_options_threshold (value : option Q) (good warn : Q) :
  In (score_by_threshold value good warn) score_options.
Proof.
  destruct value as [v|]; [|now left].
  destruct (score_by_threshold_cases v good warn)
    as [[_ E]|[[_ [_ E]]|[_ [_ E]]]]; rewrite E; simpl; auto.
Qed.

Lemma score_options_inverse_threshold (value : option Q) (good warn : Q) :
  In (score_by_inverse_threshold value good warn) score_options.
Proof.
  destruct value as [v|]; [|now left].
  destruct (score_by_inverse_threshold_cases v good warn)
    as [[_ E]|[[_ [_ E]]|[_ [_ E]]]]; rewrite E; simpl; auto.
Qed.

Lemma score_all_scorer_scores (k : Kpis) : scorer_scores (score_all k).
Proof.
  unfold scorer_scores, score_all; simpl.
  unfold score_gm, score_om, score_def, score_yield, score_otd, score_inv.
  repeat split; try apply score_options_threshold;
    try apply score_options_inverse_threshold.
  destruct (inv_to_sales k);
    [apply score_options_inverse_threshold | now left].
Qed.

(** C3 as the code has it: the exact weighted average of the available
    scores lies between the least and the greatest of them, and the
    binary64 composite the script computes from scorer scores lies
    between the double just below the least and the double just above
    the greatest, whichever way [sum] adds. *)
Theorem composite_near_extremes (s : Scores) :
  (forall t, total_score s = Ret (Some t) ->
             inject_Z (min_scored s) <= t <= inject_Z (max_scored s)) /\
  (scorer_scores s ->
   forall sum c, py_sums sum -> total_score_f64 sum s = Ret (Some c) ->
     (next_down (int_to_float (min_scored s)) <=? c)%float = true /\
     (c <=? next_up (int_to_float (max_scored s)))%float = true).
Proof.
  split.
  - intros t Ht. unfold total_score in Ht.
    eapply total_of_bounds; [|exact Ht].
    apply weighted_items_within, scored_between_extremes.
  - intros Hs sum c Hsum Hc.
    destruct (near_extremes_scorer sum s c Hs Hsum Hc) as [H _].
    unfold within_ulp in H. now apply andb_true_iff in H.
Qed.

Lemma composite_near_extremes_witness :
  (exists t, total_score (mkScores (Some 100%Z) None (Some 40%Z) None
                                   (Some 70%Z) None) = Ret (Some t)
             /\ 40 <= t <= 100) /\
  (exists c, total_score_f64 compensated_sum
               (mkScores (Some 100%Z) None (Some 40%Z) None (Some 70%Z) None)
             = Ret (Some c)
             /\ (next_down 40 <=? c)%float = true
             /\ (c <=? next_up 100)%float = true).
Proof.
  destruct (composite_near_extremes
              (mkScores (Some 100%Z) None (Some 40%Z) None (Some 70%Z) None))
    as [Hq Hf].
  split.
  - eexists. split; [reflexivity|]. apply Hq. reflexivity.
  - match eval vm_compute in
          (total_score_f64 compensated_sum
             (mkScores (Some 100%Z) None (Some 40%Z) None (Some 70%Z) None))
    with Ret (Some ?c) => exists c end.
    split; [vm_compute; reflexivity|].
    apply (Hf ltac:(unfold scorer_scores, score_options; simpl; tauto)
              compensated_sum).
    + now right.
    + vm_compute. reflexivity.
Defined.

(** C3 as stated fails: with the operating margin and the on-time rate
    both scored 100 the greatest score is 100, and the composite the
    script computes is the next double above 100, whichever way [sum]
    adds. *)
Lemma composite_exceeds_maximum :
  max_scored (mkScores None (Some 100%Z) None None (Some 100%Z) None) = 100%Z /\
  total_score_f64 plain_sum
    (mkScores None (Some 100%Z) None None (Some 100%Z) None)
  = Ret (Some (next_up 100)) /\
  total_score_f64 compensated_sum
    (mkScores None (Some 100%Z) None None (Some 100%Z) None)
  = Ret (Some (next_up 100)) /\
  (100 <? next_up 100)%float = true.
Proof.
  repeat split; vm_compute; reflexivity.
Qed.

(** C10 as the code has it: every score that enters the composite is 100,
    70 or 40; the exact weighted average lies in [40, 100], and the
    binary64 composite the script computes lies between the double just
    below 40 and the double just above 100, whichever way [sum] adds. *)
Theorem composite_near_40_100 (k : Kpis) :
  (forall x, In x (scored (score_all k)) ->
             (x = 100 \/ x = 70 \/ x = 40)%Z) /\
  (forall t, total_score (score_all k) = Ret (Some t) -> 40 <= t <= 100) /\
  (forall sum c, py_sums sum ->
     total_score_f64 sum (score_all k) = Ret (Some c) ->
     (next_down 40 <=? c)%float = true /\ (c <=? next_up 100)%float = true).
Proof.
  split; [apply score_all_values|]. split.
  - intros t Ht. unfold total_score in Ht.
    apply (total_of_bounds 40 100 (weighted_items (scores (score_all k))) t);
      [|exact Ht].
    apply weighted_items_within. rewrite Forall_forall. intros x Hx.
    destruct (score_all_values k x Hx) as [-> | [-> | ->]]; lia.
  - intros sum c Hsum Hc.
    destruct (near_extremes_scorer sum (score_all k) c
                (score_all_scorer_scores k) Hsum Hc) as [_ H].
    unfold within_ulp in H. now apply andb_true_iff in H.
Qed.

Lemma composite_near_40_100_witness :
  exists c,
    total_score_f64 plain_sum
      (score_all (mkKpis (Some 300) None None None None (Some 1)
                         (Some 0.05) None (Some 0.92) None))
    = Ret (Some c)
    /\ (next_down 40 <=? c)%float = true /\ (c <=? next_up 100)%float = true.
Proof.
  match eval vm_compute in
        (total_score_f64 plain_sum
           (score_all (mkKpis (Some 300) None None None None (Some 1)
                              (Some 0.05) None (Some 0.92) None)))
  with Ret (Some ?c) => exists c end.
  split; [vm_compute; reflexivity|].
  apply (composite_near_40_100
           (mkKpis (Some 300) None None None None (Some 1)
                   (Some 0.05) None (Some 0.92) None) ) with (sum := plain_sum).
  - now left.
  - vm_compute. reflexivity.
Defined.

(** C10 as stated fails at both ends: an operating margin and an on-time
    rate that both score 100 give a composite above 100, a defect rate
    and an inventory ratio that both score 40 give one below 40,
    whichever way [sum] adds. *)
Lemma composite_leaves_40_100 :
  score_all (mkKpis (Some 300) None None None None (Some 1)
                    None None (Some 1) None)
  = mkScores None (Some 100%Z) None None (Some 100%Z) None /\
  total_score_f64 plain_sum
    (score_all (mkKpis (Some 300) None None None None (Some 1)
                       None None (Some 1) None))
  = Ret (Some (next_up 100)) /\
  total_score_f64 compensated_sum
    (score_all (mkKpis (Some 300) None None None None (Some 1)
                       None None (Some 1) None))
  = Ret (Some (next_up 100)) /\
  (100 <? next_up 100)%float = true /\
  score_all (mkKpis None None None None None None
                    (Some 0.05) None None (Some 0.5))
  = mkScores None None (Some 40%Z) None None (Some 40%Z) /\
  total_score_f64 plain_sum
    (score_all (mkKpis None None None None None None
                       (Some 0.05) None None (Some 0.5)))
  = Ret (Some (next_down 40)) /\
  total_score_f64 compensated_sum
    (score_all (mkKpis None None None None None None
                       (Some 0.05) None None (Some 0.5)))
  = Ret (Some (next_down 40)) /\
  (next_down 40 <? 40)%float = true.
Proof.
  repeat split; vm_compute; reflexivity.
Qed.

(** ** Binary64 comparisons *)

Lemma lex_lt (e1 e2 : Z) (m1 m2 : positive) :
  match (e1 ?= e2)%Z with
  | Lt => Lt
  | Gt => Gt
  | Eq => Pos.compare_cont Eq m1 m2
  end = Lt
  <-> (e1 < e2)%Z \/ (e1 = e2 /\ (m1 < m2)%positive).
Proof.
  change (Pos.compare_cont Eq m1 m2) with (Pos.compare m1 m2).
  destruct (Z.compare_spec e1 e2) as [E|L|G].
  - rewrite Pos.compare_lt_iff. split; [intro H; right; now split|].
    intros [H|[_ H]]; [lia | exact H].
  - split; [intros _; now left | reflexivity].
  - split; [discriminate | intros [H|[H _]]; lia].
Qed.

Lemma lex_opp_lt (e1 e2 : Z) (m1 m2 : positive) :
  match (e1 ?= e2)%Z with
  | Lt => Gt
  | Gt => Lt
  | Eq => CompOpp (Pos.compare_cont Eq m1 m2)
  end = Lt
  <-> (e2 < e1)%Z \/ (e1 = e2 /\ (m2 < m1)%positive).
Proof.
  change (Pos.compare_cont Eq m1 m2) with (Pos.compare m1 m2).
  destruct (Z.compare_spec e1 e2) as [E|L|G].
  - rewrite <- Pos.compare_antisym, Pos.compare_lt_iff.
    split; [intro H; right; now split|].
    intros [H|[_ H]]; [lia | exact H].
  - split; [discriminate | intros [H|[H _]]; lia].
  - split; [intros _; now left | reflexivity].
Qed.

Lemma SFcompare_lt_trans (x y z : spec_float) :
  SFcompare x y = Some Lt -> SFcompare y z = Some Lt ->
  SFcompare x z = Some Lt.
Proof.
  destruct x as [sx|sx| |sx mx ex], y as [sy|sy| |sy my ey],
           z as [sz|sz| |sz mz ez]; simpl;
    try discriminate;
    try (destruct sx; discriminate); try (destruct sy; discriminate);
    try (destruct sx, sy; discriminate);
    try (destruct sx, sy, sz; intros; (reflexivity || discriminate)).
  destruct sx, sy, sz; intros H1 H2; try discriminate; try reflexivity;
    injection H1 as H1; injection H2 as H2; f_equal;
    rewrite ?lex_lt, ?lex_opp_lt in *; lia.
Qed.

Lemma SFcompare_lt_gt (x y : spec_float) :
  SFcompare x y = Some Lt <-> SFcompare y x = Some Gt.
Proof.
  destruct x as [sx|sx| |sx mx ex], y as [sy|sy| |sy my ey]; simpl;
    try (split; discriminate);
    try (destruct sx; split; (discriminate || reflexivity));
    try (destruct sy; split; (discriminate || reflexivity));
    try (destruct sx, sy; split; (discriminate || reflexivity)).
  change (Pos.compare_cont Eq mx my) with (Pos.compare mx my).
  change (Pos.compare_cont Eq my mx) with (Pos.compare my mx).
  rewrite (Z.compare_antisym ex ey), (Pos.compare_antisym mx my).
  destruct sx, sy; try (split; (discriminate || reflexivity));
    destruct (ex ?= ey)%Z; simpl; try (split; (discriminate || reflexivity));
    destruct (mx ?= my)%positive; simpl;
    split; (discriminate || reflexivity).
Qed.

Lemma SFcompare_refl (x : spec_float) :
  x <> S754_nan -> SFcompare x x = Some Eq.
Proof.
  destruct x as [s|s| |s m e]; simpl; intro H.
  - reflexivity.
  - now destruct s.
  - now contradiction H.
  - change (Pos.compare_cont Eq m m) with (Pos.compare m m).
    rewrite Z.compare_refl, Pos.compare_refl. now destruct s.
Qed.

Lemma SFcompare_none (x y : spec_float) :
  SFcompare x y = None <-> x = S754_nan \/ y = S754_nan.
Proof.
  destruct x as [sx|sx| |sx mx ex], y as [sy|sy| |sy my ey]; simpl;
    split; intro H; try discriminate H; auto;
    destruct H as [H|H]; discriminate H.
Qed.

(** A float is NaN exactly when it differs from itself. *)
Lemma is_nan_f64_spec (x : float) :
  is_nan_f64 x = true <-> Prim2SF x = S754_nan.
Proof.
  unfold is_nan_f64. rewrite negb_true_iff, eqb_spec. unfold SFeqb. split.
  - intro H. destruct (Prim2SF x) eqn:E; try reflexivity;
      rewrite SFcompare_refl in H by discriminate; discriminate H.
  - intros ->. reflexivity.
Qed.

Lemma f64_lt_spec (x y : float) :
  (x <? y)%float = true <-> SFcompare (Prim2SF x) (Prim2SF y) = Some Lt.
Proof.
  rewrite ltb_spec. unfold SFltb.
  destruct (SFcompare (Prim2SF x) (Prim2SF y)) as [[| |]|];
    split; (discriminate || reflexivity).
Qed.

Lemma f64_lt_trans (x y z : float) :
  (x <? y)%float = true -> (y <? z)%float = true -> (x <? z)%float = true.
Proof.
  rewrite !f64_lt_spec. apply SFcompare_lt_trans.
Qed.

Lemma f64_lt_not_nan (x y : float) :
  (x <? y)%float = true -> is_nan_f64 x = false /\ is_nan_f64 y = false.
Proof.
  rewrite f64_lt_spec. intro H.
  split; apply not_true_is_false; rewrite is_nan_f64_spec; intro E;
    rewrite E in H; [|destruct (Prim2SF x)]; discriminate H.
Qed.

Lemma f64_lt_not_le (x y : float) :
  (x <? y)%float = true -> (y <=? x)%float = false.
Proof.
  rewrite f64_lt_spec, leb_spec, SFcompare_lt_gt. unfold SFleb.
  now intros ->.
Qed.

Lemma f64_not_le_lt (x y : float) :
  is_nan_f64 x = false -> is_nan_f64 y = false ->
  (y <=? x)%float = false -> (x <? y)%float = true.
Proof.
  intros Hx Hy. rewrite f64_lt_spec, leb_spec, SFcompare_lt_gt. unfold SFleb.
  destruct (SFcompare (Prim2SF y) (Prim2SF x)) as [[| |]|] eqn:E;
    try discriminate; [reflexivity|].
  apply SFcompare_none in E. intros _. exfalso.
  destruct E as [E|E]; apply is_nan_f64_spec in E; congruence.
Qed.

Lemma f64_nan_compare (x y : float) :
  is_nan_f64 x = true ->
  (x <=? y)%float = false /\ (y <=? x)%float = false /\
  (x <? y)%float = false /\ (y <? x)%float = false.
Proof.
  intro H. apply is_nan_f64_spec in H.
  rewrite !leb_spec, !ltb_spec, H. unfold SFleb, SFltb.
  repeat split; try reflexivity; now destruct (Prim2SF y).
Qed.

(** ** Scores, lights and tips of binary64 values *)

Lemma score_by_threshold_f64_cases (v good warn : float) :
  ((good <=? v)%float = true
   /\ score_by_threshold_f64 (Some v) good warn = Some 100%Z) \/
  ((good <=? v)%float = false /\ (warn <=? v)%float = true
   /\ score_by_threshold_f64 (Some v) good warn = Some 70%Z) \/
  ((good <=? v)%float = false /\ (warn <=? v)%float = false
   /\ score_by_threshold_f64 (Some v) good warn = Some 40%Z).
Proof.
  unfold score_by_threshold_f64.
  destruct (good <=? v)%float; [now left|].
  destruct (warn <=? v)%float; [right; left | right; right]; now repeat split.
Qed.

Lemma score_by_inverse_threshold_f64_cases (v good warn : float) :
  ((v <=? good)%float = true
   /\ score_by_inverse_threshold_f64 (Some v) good warn = Some 100%Z) \/
  ((v <=? good)%float = false /\ (v <=? warn)%float = true
   /\ score_by_inverse_threshold_f64 (Some v) good warn = Some 70%Z) \/
  ((v <=? good)%float = false /\ (v <=? warn)%float = false
   /\ score_by_inverse_threshold_f64 (Some v) good warn = Some 40%Z).
Proof.
  unfold score_by_inverse_threshold_f64.
  destruct (v <=? good)%float; [now left|].
  destruct (v <=? warn)%float; [right; left | right; right]; now repeat split.
Qed.

Ltac light_iff v :=
  let H := fresh "H" in
  let x := fresh "x" in
  let Hx := fresh "Hx" in
  let Hr := fresh "Hr" in
  let Hr1 := fresh "Hr" in
  let Hr2 := fresh "Hr" in
  split;
  [ intro H;
    first [ discriminate H | reflexivity
          | exists v; repeat split; assumption ]
  | intro H;
    first [ discriminate H | reflexivity
          | destruct H as (x & Hx & Hr); first [discriminate Hx | idtac];
            injection Hx as <-;
            first [ reflexivity
                  | exfalso;
                    match type of Hr with
                    | _ /\ _ => destruct Hr as [Hr1 Hr2]
                    | _ => idtac
                    end; congruence ] ] ].

(** X3: the traffic light of a scored binary64 KPI value, for any
    thresholds: white exactly for an unavailable value, green exactly when
    the comparison with [good] succeeds, red exactly when the comparisons
    with both thresholds fail; a NaN value fails every comparison and is
    therefore red with either scorer. *)
Theorem traffic_light_of_score_f64 (value : option float) (good warn : float) :
  (traffic_light (score_by_threshold_f64 value good warn) = "⚪"
   <-> value = None) /\
  (traffic_light (score_by_threshold_f64 value good warn) = "🟢"
   <-> exists v, value = Some v /\ (good <=? v)%float = true) /\
  (traffic_light (score_by_threshold_f64 value good warn) = "🔴"
   <-> exists v, value = Some v /\ (good <=? v)%float = false
                 /\ (warn <=? v)%float = false) /\
  (traffic_light (score_by_inverse_threshold_f64 value good warn) = "⚪"
   <-> value = None) /\
  (traffic_light (score_by_inverse_threshold_f64 value good warn) = "🟢"
   <-> exists v, value = Some v /\ (v <=? good)%float = true) /\
  (traffic_light (score_by_inverse_threshold_f64 value good warn) = "🔴"
   <-> exists v, value = Some v /\ (v <=? good)%float = false
                 /\ (v <=? warn)%float = false) /\
  (nan_value value ->
   traffic_light (score_by_threshold_f64 value good warn) = "🔴" /\
   traffic_light (score_by_inverse_threshold_f64 value good warn) = "🔴").
Proof.
  destruct value as [v|].
  - destruct (score_by_threshold_f64_cases v good warn)
      as [[L E]|[[L [M E]]|[L [M E]]]];
    destruct (score_by_inverse_threshold_f64_cases v good warn)
      as [[L' E']|[[L' [M' E']]|[L' [M' E']]]];
    rewrite E, E'; simpl;
    (split; [light_iff v|split; [light_iff v|split; [light_iff v|
     split; [light_iff v|split; [light_iff v|split; [light_iff v|]]]]]]);
    intros (x & Hx & Hn); injection Hx as <-;
    destruct (f64_nan_compare v good Hn) as (N1 & N2 & _);
    destruct (f64_nan_compare v warn Hn) as (N3 & N4 & _);
    try congruence; split; reflexivity.
  - simpl.
    (split; [light_iff 0%float|split; [light_iff 0%float|
     split; [light_iff 0%float|split; [light_iff 0%float|
     split; [light_iff 0%float|split; [light_iff 0%float|]]]]]]).
    intros (x & Hx & _). discriminate Hx.
Qed.

Lemma traffic_light_of_score_f64_witness :
  traffic_light (score_by_inverse_threshold_f64 (Some 0.05%float) 0.01 0.03)
  = "🔴" /\
  traffic_light (score_by_threshold_f64 (Some nan) 0.25 0.15) = "🔴".
Proof.
  split.
  - destruct (traffic_light_of_score_f64 (Some 0.05%float) 0.01 0.03)
      as (_ & _ & _ & _ & _ & R & _).
    apply R. exists 0.05%float. split; [reflexivity|].
    split; vm_compute; reflexivity.
  - destruct (traffic_light_of_score_f64 (Some nan) 0.25 0.15)
      as (_ & _ & _ & _ & _ & _ & N).
    apply N. exists nan. split; [reflexivity|]. vm_compute. reflexivity.
Defined.

Lemma not_nan_value (x : float) :
  ~ nan_value (Some x) <-> is_nan_f64 x = false.
Proof.
  unfold nan_value. split.
  - intro H. apply not_true_is_false. intro E. apply H. exists x. now split.
  - intros H (y & E & Hy). injection E as <-. congruence.
Qed.

(** A rule "below warn" fires exactly on the values that score 40 and are
    not NaN. *)
Lemma below_f64_iff (v : option float) (good warn : float) :
  (warn <? good)%float = true ->
  (below_f64 v warn = true
   <-> score_by_threshold_f64 v good warn = Some 40%Z /\ ~ nan_value v).
Proof.
  intro Hw. destruct (f64_lt_not_nan warn good Hw) as [Nw _].
  destruct v as [x|]; simpl below_f64.
  - rewrite not_nan_value. split.
    + intro H. destruct (f64_lt_not_nan x warn H) as [Nx _].
      split; [|exact Nx]. unfold score_by_threshold_f64.
      rewrite (f64_lt_not_le x good (f64_lt_trans x warn good H Hw)).
      now rewrite (f64_lt_not_le x warn H).
    + intros [H Nx]. apply f64_not_le_lt; [exact Nx | exact Nw|].
      destruct (score_by_threshold_f64_cases x good warn)
        as [[_ E]|[[_ [_ E]]|[_ [M _]]]];
        [rewrite E in H; discriminate H | rewrite E in H; discriminate H
        | exact M].
  - split; [discriminate | intros [H _]; discriminate H].
Qed.

(** A rule "above warn" fires exactly on the values that score 40 and are
    not NaN. *)
Lemma above_f64_iff (v : option float) (good warn : float) :
  (good <? warn)%float = true ->
  (above_f64 v warn = true
   <-> score_by_inverse_threshold_f64 v good warn = Some 40%Z
       /\ ~ nan_value v).
Proof.
  intro Hw. destruct (f64_lt_not_nan good warn Hw) as [_ Nw].
  destruct v as [x|]; simpl above_f64.
  - rewrite not_nan_value. split.
    + intro H. destruct (f64_lt_not_nan warn x H) as [_ Nx].
      split; [|exact Nx]. unfold score_by_inverse_threshold_f64.
      rewrite (f64_lt_not_le good x (f64_lt_trans good warn x Hw H)).
      now rewrite (f64_lt_not_le warn x H).
    + intros [H Nx]. apply f64_not_le_lt; [exact Nw | exact Nx|].
      destruct (score_by_inverse_threshold_f64_cases x good warn)
        as [[_ E]|[[_ [_ E]]|[_ [M _]]]];
        [rewrite E in H; discriminate H | rewrite E in H; discriminate H
        | exact M].
  - split; [discriminate | intros [H _]; discriminate H].
Qed.

(** X14: over binary64 KPI values, a warning tip is shown for a KPI
    exactly when that KPI scores 40 and its value is not NaN, and the
    positive tip of a domain exactly when neither of its two rules
    fires.  A NaN value scores 40 without a warning: with two NaN
    margins the profitability tips are the positive tip alone. *)
Theorem warning_tips_match_scores_f64
  (gm om dr yr ot iv : option float) :
  (In TIP_GROSS (tips_profit_f64 gm om)
   <-> score_by_threshold_f64 gm 0.25 0.15 = Some 40%Z /\ ~ nan_value gm) /\
  (In TIP_OP (tips_profit_f64 gm om)
   <-> score_by_threshold_f64 om 0.10 0.05 = Some 40%Z /\ ~ nan_value om) /\
  (In TIP_PROFIT_OK (tips_profit_f64 gm om)
   <-> ~ (score_by_threshold_f64 gm 0.25 0.15 = Some 40%Z /\ ~ nan_value gm)
       /\ ~ (score_by_threshold_f64 om 0.10 0.05 = Some 40%Z
             /\ ~ nan_value om)) /\
  (In TIP_DEFECT (tips_quality_f64 dr yr)
   <-> score_by_inverse_threshold_f64 dr 0.01 0.03 = Some 40%Z
       /\ ~ nan_value dr) /\
  (In TIP_YIELD (tips_quality_f64 dr yr)
   <-> score_by_threshold_f64 yr 0.98 0.95 = Some 40%Z /\ ~ nan_value yr) /\
  (In TIP_QUALITY_OK (tips_quality_f64 dr yr)
   <-> ~ (score_by_inverse_threshold_f64 dr 0.01 0.03 = Some 40%Z
          /\ ~ nan_value dr)
       /\ ~ (score_by_threshold_f64 yr 0.98 0.95 = Some 40%Z
             /\ ~ nan_value yr)) /\
  (In TIP_LATE (tips_delivery_f64 ot iv)
   <-> score_by_threshold_f64 ot 0.95 0.90 = Some 40%Z /\ ~ nan_value ot) /\
  (In TIP_STOCK (tips_delivery_f64 ot iv)
   <-> score_by_inverse_threshold_f64 iv 0.15 0.30 = Some 40%Z
       /\ ~ nan_value iv) /\
  (In TIP_DELIVERY_OK (tips_delivery_f64 ot iv)
   <-> ~ (score_by_threshold_f64 ot 0.95 0.90 = Some 40%Z /\ ~ nan_value ot)
       /\ ~ (score_by_inverse_threshold_f64 iv 0.15 0.30 = Some 40%Z
             /\ ~ nan_value iv)) /\
  (score_by_threshold_f64 (Some nan) 0.25 0.15 = Some 40%Z /\
   score_by_threshold_f64 (Some nan) 0.10 0.05 = Some 40%Z /\
   tips_profit_f64 (Some nan) (Some nan) = [TIP_PROFIT_OK]).
Proof.
  unfold tips_profit_f64, tips_quality_f64, tips_delivery_f64.
  destruct (tips_membership (below_f64 gm 0.15) (below_f64 om 0.05)
              TIP_GROSS TIP_OP TIP_PROFIT_OK) as (P1 & P2 & P3);
    try distinct_strings.
  destruct (tips_membership (above_f64 dr 0.03) (below_f64 yr 0.95)
              TIP_DEFECT TIP_YIELD TIP_QUALITY_OK) as (Q1 & Q2 & Q3);
    try distinct_strings.
  destruct (tips_membership (below_f64 ot 0.90) (above_f64 iv 0.30)
              TIP_LATE TIP_STOCK TIP_DELIVERY_OK) as (D1 & D2 & D3);
    try distinct_strings.
  rewrite P1, P2, P3, Q1, Q2, Q3, D1, D2, D3.
  rewrite <- !not_true_iff_false.
  rewrite (below_f64_iff gm 0.25 0.15) by reflexivity.
  rewrite (below_f64_iff om 0.10 0.05) by reflexivity.
  rewrite (above_f64_iff dr 0.01 0.03) by reflexivity.
  rewrite (below_f64_iff yr 0.98 0.95) by reflexivity.
  rewrite (below_f64_iff ot 0.95 0.90) by reflexivity.
  rewrite (above_f64_iff iv 0.15 0.30) by reflexivity.
  repeat split; try tauto; reflexivity.
Qed.

Lemma warning_tips_match_scores_f64_witness :
  In TIP_GROSS (tips_profit_f64 (Some 0.1%float) None) /\
  ~ In TIP_OP (tips_profit_f64 (Some 0.1%float) None).
Proof.
  destruct (warning_tips_match_scores_f64 (Some 0.1%float) None None None
              None None) as (G & O & _).
  split.
  - apply G. split; [vm_compute; reflexivity|].
    apply not_nan_value. vm_compute. reflexivity.
  - intro H. apply O in H. destruct H as [H _]. discriminate H.
Defined.
